(** * Routes WSGI middleware ([routes/middleware.py])

    A shallow embedding of [RoutesMiddleware.__call__] and [is_form_post].

    The WSGI environment is the Python dict it is in the source: a finite
    map from string keys to Python values, mutated in place.  The code the
    middleware calls but does not define (webob's [Request], the route
    table's matcher, [request_config], [URLGenerator], the wrapped
    application) is taken as a parameter: each collaborator is an arbitrary
    function on the shared world, so it may read and write the environment
    like the Python object it stands for.  Python exceptions are explicit
    outcomes; a raise keeps the mutations made before it. *)

From Stdlib Require Import Ascii String DecimalString.
From stdpp Require Import base option list gmap strings.

Local Open Scope string_scope.

(** ** Python strings

    A [str] is the sequence of the bytes of its UTF-8 encoding: an ASCII
    character is one byte below 128, any other character a run of bytes
    from 128 on.  Substring tests, [split], [startswith] and the regular
    expression below, all with ASCII arguments, read the same on the bytes
    as on the characters.  Case mapping does not: Python's [str.upper] and
    [str.lower] know all of Unicode.  [ascii_upper] and [lower] map the
    ASCII letters and leave every other byte alone.  For [is_form_post]
    that is enough: the Kelvin sign is the only character beyond ASCII
    that [str.lower] maps to ASCII characters alone, and the [k] it gives
    occurs in neither of the two form types, so the comparison of line 171
    comes out the same.  For the methods of lines 75 and 86 it is not
    ([str.upper] turns [ß] into [SS]): there the embedding takes Python's
    [str.upper] as it is, see [str_upper] below. *)

Definition LF : ascii := ascii_of_nat 10.

Definition ascii_upper_char (c : ascii) : ascii :=
  let n := nat_of_ascii c in
  if (97 <=? n)%nat && (n <=? 122)%nat then ascii_of_nat (n - 32) else c.

Definition lower_char (c : ascii) : ascii :=
  let n := nat_of_ascii c in
  if (65 <=? n)%nat && (n <=? 90)%nat then ascii_of_nat (n + 32) else c.

Fixpoint str_map (f : ascii -> ascii) (s : string) : string :=
  match s with
  | EmptyString => EmptyString
  | String c s' => String (f c) (str_map f s')
  end.

(** Upper-casing of the ASCII letters; it is [s.upper()] on a string of
    ASCII characters only. *)
Definition ascii_upper : string -> string := str_map ascii_upper_char.

(** [s.lower()], as far as line 171 can tell *)
Definition lower : string -> string := str_map lower_char.

(** [sub in s] *)
Fixpoint str_in (sub s : string) : bool :=
  String.prefix sub s ||
  match s with
  | EmptyString => false
  | String _ s' => str_in sub s'
  end.

(** [s.startswith(p)] *)
Definition startswith (p s : string) : bool := String.prefix p s.

(** [s.split(c, 1)[0]]: the text before the first [c], all of [s] when
    there is none. *)
Fixpoint split_head (c : ascii) (s : string) : string :=
  match s with
  | EmptyString => EmptyString
  | String d s' => if Ascii.eqb d c then EmptyString else String d (split_head c s')
  end.

(** ['%s' % n] for a non-negative integer *)
Definition str_of_nat (n : nat) : string := NilZero.string_of_uint (Nat.to_uint n).

(** ** The regular expression of the path rewrite

    [re.sub(r'^(.*?)/' + re.escape(newpath) + '$', r'\1', oldpath)].
    The pattern is anchored at the start, so it matches at most once, at
    position 0.  [(.*?)] is lazy and [.] does not match a line feed;
    [re.escape] makes [newpath] a literal; [$] matches at the very end and
    also just before a final line feed.  [lazy_group lit s] is the shortest
    prefix [p] of [s], free of line feeds, with [s = p ++ lit ++ r] and [r]
    empty or a single line feed, together with that unmatched [r]. *)

Fixpoint lazy_group (lit s : string) : option (string * string) :=
  if String.eqb s lit then Some (EmptyString, EmptyString)
  else if String.eqb s (lit +:+ String LF EmptyString)
       then Some (EmptyString, String LF EmptyString)
  else match s with
       | EmptyString => None
       | String c s' =>
           if Ascii.eqb c LF then None
           else match lazy_group lit s' with
                | Some (p, r) => Some (String c p, r)
                | None => None
                end
       end.

(** The substitution: group 1 replaces the match, what the match left
    over stays; no match leaves the subject as it is. *)
Definition re_sub_group1 (newpath oldpath : string) : string :=
  match lazy_group ("/" +:+ newpath) oldpath with
  | Some (p, r) => p +:+ r
  | None => oldpath
  end.

(** ** Python values *)

(** The route table ([self.mapper]) is an object known by its identity. *)
Definition Mapper := nat.

(** A match dict: variable name to [str] or [None]. *)
Abbreviation MatchDict := (gmap string (option string)).

(** The attributes of a [Route] the middleware reads; [route_id] is
    [id(route)]. *)
Record Route := mkRoute {
  routepath : string;
  defaults : MatchDict;
  redirect : bool;
  redirect_status : string;
  route_id : nat
}.

(** A [URLGenerator] object, known by its identity; what it is bound to
    is what its constructor was called with. *)
Definition URLGen := nat.

(** Parsed request parameters ([req.GET], [req.POST]) as far as the
    middleware uses them: membership and item lookup. *)
Abbreviation Params := (gmap string string).

(** The values an environment holds here.  Next to [None], [str] and the
    three kinds of object the middleware stores itself, there are [bytes],
    tuples and dicts of strings, and plain objects: instances of a class
    that defines nothing of its own but its truth value.  All of them are
    immutable as far as the middleware goes.  Lists, which [+=] updates in
    place, and objects whose methods run code of their own are left out. *)
Inductive Value :=
| VNone
| VStr (s : string)
| VBytes (b : string)
| VTuple (items : list string)
| VDict (d : Params)
| VRoute (r : Route)
| VUrl (u : URLGen)
| VRoutingArgs (u : URLGen) (m : MatchDict)   (* the tuple [((url), match)] *)
| VObj (truth : bool) (n : nat).              (* a plain object *)

(** Python truthiness, [if v:] *)
Definition truthy (v : Value) : bool :=
  match v with
  | VNone => false
  | VStr s | VBytes s => negb (String.eqb s "")
  | VTuple items => negb (bool_decide (items = []))
  | VDict d => negb (bool_decide (d = ∅))
  | VRoute _ | VUrl _ | VRoutingArgs _ _ => true
  | VObj b _ => b
  end.

Abbreviation Environ := (gmap string Value).

(** ** The world

    One environment dict per request, shared by reference between the
    middleware and its collaborators, and the [environ] attribute of the
    middleware's route table, present or not. *)
Record World := mkWorld {
  environ : Environ;
  mapper_environ : bool
}.

Definition set_environ (e : Environ) (w : World) : World :=
  mkWorld e (mapper_environ w).

Inductive Exn :=
| KeyError (k : string)
| TypeError
| AttributeError
| AppError (n : nat).      (* whatever the wrapped application raises *)

Inductive Outcome (A : Type) :=
| Return (a : A)
| Raise (e : Exn).
Arguments Return {A} a.
Arguments Raise {A} e.

(** A WSGI response body: the iterable the application returns. *)
Abbreviation Response := (list string).

(** The calls the middleware makes to its collaborators, in order, with
    the arguments of each call.  The trace is ghost state: no collaborator
    can read or write it. *)
Inductive Event :=
| EvRequestGET
| EvRequestPOST
| EvMatch (shared : bool) (m : Mapper) (e : Environ)
| EvURLGenerator (m : Mapper) (e : Environ)
| EvGenerate (u : URLGen) (name : string) (kw : MatchDict)
| EvStartResponse (status : string) (headers : list (string * string))
| EvApp (e : Environ).

Record St := mkSt {
  world : World;
  trace : list Event
}.

(** ** The monad of the embedding: state and exceptions *)

Definition M (A : Type) : Type := St -> Outcome A * St.

Definition ret {A} (a : A) : M A := fun st => (Return a, st).

Definition raise {A} (e : Exn) : M A := fun st => (Raise e, st).

Definition bind {A B} (m : M A) (k : A -> M B) : M B :=
  fun st =>
    match m st with
    | (Return a, st') => k a st'
    | (Raise e, st') => (Raise e, st')
    end.

Declare Scope py_scope.
Delimit Scope py_scope with py.
Notation "x <- m ;; k" := (bind m (fun x => k))
  (at level 100, m at next level, right associativity) : py_scope.
Notation "m ;;; k" := (bind m (fun _ => k))
  (at level 100, right associativity) : py_scope.
Local Open Scope py_scope.

(** [environ.get(k)] as an option *)
Definition env_lookup (k : string) : M (option Value) :=
  fun st => (Return (environ (world st) !! k), st).

(** [environ[k]] *)
Definition env_get (k : string) : M Value :=
  fun st =>
    match environ (world st) !! k with
    | Some v => (Return v, st)
    | None => (Raise (KeyError k), st)
    end.

(** [environ[k] = v] *)
Definition env_set (k : string) (v : Value) : M unit :=
  fun st => (Return tt, mkSt (set_environ (<[k := v]> (environ (world st))) (world st)) (trace st)).

(** A call to a collaborator: the event is recorded, then the collaborator
    runs on the world. *)
Definition call {A} (ev : Environ -> Event) (f : World -> World * A) : M A :=
  fun st =>
    let (w', a) := f (world st) in
    (Return a, mkSt w' (trace st ++ [ev (environ (world st))])).

(** ['_method' in qs], line 70: a substring test on a [str], a search for
    an equal item in a tuple (the two items of the routing arguments are no
    strings), a key test on a dict.  [bytes] do not take a [str] needle, and
    the other values are no containers: [TypeError]. *)
Definition contains_method (qs : Value) : M bool :=
  match qs with
  | VStr s => ret (str_in "_method" s)
  | VTuple items => ret (bool_decide ("_method" ∈ items))
  | VDict d => ret (bool_decide (is_Some (d !! "_method")))
  | VRoutingArgs _ _ => ret false
  | VNone | VBytes _ | VRoute _ | VUrl _ | VObj _ _ => raise TypeError
  end.

(** A value where the code needs a [str]: the subject of [re.sub] with a
    [str] pattern, and the left operand of [+=] with a [str] on the right.
    Every value that is not a [str] fails either with [TypeError]. *)
Definition str_operand (v : Value) : M string :=
  match v with
  | VStr s => ret s
  | _ => raise TypeError
  end.

(** [try: m except E: h] *)
Definition try_except {A} (m : M A) (caught : Exn -> bool) (h : M A) : M A :=
  fun st =>
    match m st with
    | (Raise e, st') => if caught e then h st' else (Raise e, st')
    | r => r
    end.

(** [except KeyError] and [except AttributeError] *)
Definition is_KeyError (e : Exn) : bool :=
  match e with KeyError _ => true | _ => false end.

Definition is_AttributeError (e : Exn) : bool :=
  match e with AttributeError => true | _ => false end.

(** ** Collaborators

    The code the middleware imports.  [Request_GET] and [Request_POST]
    stand for building [Request(environ)], setting [req.errors] and reading
    [req.GET] or [req.POST] (the second read, in lines 75 and 86, sees the
    parameters of the first); [request_config] for the five lines that bind
    the shared context and read [mapper_dict] and [route] back;
    [routematch] for [self.mapper.routematch(environ=environ)], whose
    result is [None] or a tuple; [URLGenerator] for the constructor and
    [url_call] for calling the generator.  [str_upper] is Python's
    [str.upper], which lines 75 and 86 apply to the parameter.

    The collaborators all return.  A failure inside one of them (webob
    cannot decode a parameter, [request_config] misses a key of the
    environment) is not modelled, so nothing below says which exceptions
    can leave [__call__]; the only failure of a callee that is modelled is
    the one of the wrapped application. *)
Record Library := mkLibrary {
  str_upper : string -> string;
  Request_GET : World -> World * Params;
  Request_POST : World -> World * Params;
  request_config : Mapper -> World -> World * (option MatchDict * option Route);
  routematch : Mapper -> World -> World * option (option MatchDict * option Route);
  URLGenerator : Mapper -> World -> World * URLGen;
  url_call : URLGen -> string -> MatchDict -> World -> World * string
}.

(** The middleware object, as [__init__] leaves it. *)
Record RoutesMiddleware := mkRoutesMiddleware {
  app : World -> World * Outcome Response;
  mapper : Mapper;
  singleton : bool;
  use_method_override : bool;
  path_info : bool;
  log_debug : bool
}.

(** [logging.DEBUG] *)
Definition DEBUG : nat := 10.

(** [RoutesMiddleware.__init__], lines 21-49.  A keyword argument left
    out is [None] here and takes its default, [True]; [effective_level] is
    what [log.getEffectiveLevel()] returns.  The log line of lines 47-49
    goes nowhere here. *)
Definition __init__ (wsgi_app : World -> World * Outcome Response) (mapper : Mapper)
    (use_method_override path_info singleton : option bool)
    (effective_level : nat) : RoutesMiddleware :=
  mkRoutesMiddleware wsgi_app mapper (default true singleton)
    (default true use_method_override) (default true path_info)
    (effective_level <=? DEBUG)%nat.

(** [v == s] for a string literal [s] *)
Definition is_str (v : Value) (s : string) : bool :=
  match v with
  | VStr t => String.eqb t s
  | _ => false
  end.

(** ** [is_form_post] *)

(** Lines 168-172 on the content type read from the environment *)
Definition form_content_type (content_type : string) : bool :=
  let content_type := lower content_type in
  let content_type :=
    if str_in ";" content_type then split_head ";" content_type else content_type in
  String.eqb content_type "application/x-www-form-urlencoded"
  || String.eqb content_type "multipart/form-data".

(** Lines 166-172.  [bytes] have a [lower] of their own, and the test
    [';' in content_type] of line 169 then fails with [TypeError]; the
    other values that are no [str] have no [lower]: [AttributeError] at
    line 168. *)
Definition is_form_post : M bool :=
  ct <- env_lookup "CONTENT_TYPE" ;;
  match default (VStr "") ct with
  | VStr content_type => ret (form_content_type content_type)
  | VBytes _ => raise TypeError
  | _ => raise AttributeError
  end.

(** ** [RoutesMiddleware.__call__] *)
Section Call.
Variable lib : Library.
Variable self : RoutesMiddleware.

(** The arguments of a [log.debug] call are evaluated only when
    [self.log_debug] holds; the message itself goes nowhere here. *)
Definition log_args (reads : M unit) : M unit :=
  if log_debug self then reads else ret tt.

(** Lines 74-79 and 85-90: record the method, overwrite it. *)
Definition override_with (v : string) : M Value :=
  old_method <- env_get "REQUEST_METHOD" ;;
  env_set "REQUEST_METHOD" (VStr (str_upper lib v)) ;;;
  log_args (_ <- env_get "REQUEST_METHOD" ;; ret tt) ;;;
  ret old_method.

(** Lines 70-79 *)
Definition query_branch : M Value :=
  GET <- call (fun _ => EvRequestGET) (Request_GET lib) ;;
  match GET !! "_method" with
  | Some v => override_with v
  | None => ret VNone
  end.

(** Lines 80-90 *)
Definition form_branch : M Value :=
  method <- env_get "REQUEST_METHOD" ;;
  if is_str method "POST" then
    form <- is_form_post ;;
    if form : bool then
      POST <- call (fun _ => EvRequestPOST) (Request_POST lib) ;;
      match POST !! "_method" with
      | Some v => override_with v
      | None => ret VNone
      end
    else ret VNone
  else ret VNone.

(** Lines 55-90; the result is [old_method]. *)
Definition method_override : M Value :=
  if use_method_override self then
    qs <- try_except (env_get "QUERY_STRING") is_KeyError (ret (VStr "")) ;;
    found <- contains_method qs ;;
    if found : bool then query_branch else form_branch
  else ret VNone.

(** Lines 94-109 *)
Definition run_matching : M (option MatchDict * option Route) :=
  if singleton self then
    call (EvMatch true (mapper self)) (request_config lib (mapper self))
  else
    results <- call (EvMatch false (mapper self)) (routematch lib (mapper self)) ;;
    match results with
    | Some (match_, route) => ret (match_, route)
    | None => ret (None, None)
    end.

(** Lines 111-112 *)
Definition restore_method (old_method : Value) : M unit :=
  if truthy old_method then env_set "REQUEST_METHOD" old_method else ret tt.

(** The arguments of the log lines 117-118 and 121-122 *)
Definition log_urlinfo : M unit :=
  _ <- env_get "REQUEST_METHOD" ;; _ <- env_get "PATH_INFO" ;; ret tt.

(** Lines 114-126; the result is the match dict that goes on. *)
Definition inspect_match (match_ : option MatchDict) (route : option Route)
  : M MatchDict :=
  match match_ with
  | Some m =>
      if bool_decide (m = ∅) then log_args log_urlinfo ;;; ret ∅
      else
        log_args (log_urlinfo ;;;
                  match route with
                  | Some _ => ret tt
                  | None => raise AttributeError
                  end) ;;;
        ret m
  | None => log_args log_urlinfo ;;; ret ∅
  end.

(** [route] as a Python value, [None] or the route object *)
Definition route_value (route : option Route) : Value :=
  match route with
  | Some r => VRoute r
  | None => VNone
  end.

(** Lines 128-132 *)
Definition publish (match_ : MatchDict) (route : option Route) : M URLGen :=
  url <- call (EvURLGenerator (mapper self)) (URLGenerator lib (mapper self)) ;;
  env_set "wsgiorg.routing_args" (VRoutingArgs url match_) ;;;
  env_set "routes.route" (route_value route) ;;;
  env_set "routes.url" (VUrl url) ;;;
  ret url.

(** [start_response(status, headers)], the server's callback *)
Definition start_response (status : string) (headers : list (string * string))
  : M unit :=
  fun st => (Return tt, mkSt (world st) (trace st ++ [EvStartResponse status headers])).

(** Lines 135-142 *)
Definition redirect_response (url : URLGen) (match_ : MatchDict) (r : Route)
  : M Response :=
  let route_name := "_redirect_" +:+ str_of_nat (route_id r) in
  location <- call (fun _ => EvGenerate url route_name match_)
                   (url_call lib url route_name match_) ;;
  start_response (redirect_status r)
                 [("Content-Type", "text/plain; charset=utf8");
                  ("Location", location)] ;;;
  ret [].

(** [match.get('path_info') or ''] *)
Definition remainder (match_ : MatchDict) : string :=
  match match_ !! "path_info" with
  | Some (Some s) => s
  | _ => ""
  end.

(** Lines 147-153.  In [environ['SCRIPT_NAME'] += ...] the old value is
    read before the right-hand side is evaluated. *)
Definition rewrite_path (match_ : MatchDict) : M unit :=
  oldpath <- env_get "PATH_INFO" ;;
  let newpath := remainder match_ in
  env_set "PATH_INFO" (VStr newpath) ;;;
  (if startswith "/" newpath then ret tt
   else env_set "PATH_INFO" (VStr ("/" +:+ newpath))) ;;;
  script_name <- env_get "SCRIPT_NAME" ;;
  oldpath <- str_operand oldpath ;;
  script_name <- str_operand script_name ;;
  env_set "SCRIPT_NAME" (VStr (script_name +:+ re_sub_group1 newpath oldpath)).

(** Line 156 *)
Definition call_app : M Response :=
  fun st =>
    let (w', r) := app self (world st) in
    (r, mkSt w' (trace st ++ [EvApp (environ (world st))])).

(** [del self.mapper.environ] *)
Definition del_mapper_environ : M unit :=
  fun st =>
    if mapper_environ (world st)
    then (Return tt, mkSt (mkWorld (environ (world st)) false) (trace st))
    else (Raise AttributeError, st).

(** Lines 146-163 *)
Definition forward (match_ : MatchDict) : M Response :=
  (if path_info self && bool_decide (is_Some (match_ !! "path_info"))
   then rewrite_path match_ else ret tt) ;;;
  response <- call_app ;;
  try_except del_mapper_environ is_AttributeError (ret tt) ;;;
  ret response.

(** Lines 134-163 *)
Definition dispatch (url : URLGen) (match_ : MatchDict) (route : option Route)
  : M Response :=
  match route with
  | Some r => if redirect r then redirect_response url match_ r
              else forward match_
  | None => forward match_
  end.

(** Lines 114-163: everything that looks at the match result. *)
Definition after_restore (match_ : option MatchDict) (route : option Route)
  : M Response :=
  m <- inspect_match match_ route ;;
  url <- publish m route ;;
  dispatch url m route.

(** Lines 52-163 *)
Definition __call__ : M Response :=
  old_method <- method_override ;;
  found <- run_matching ;;
  restore_method old_method ;;;
  after_restore (fst found) (snd found).

End Call.

(** ** Notions the statements use *)

(** A collaborator leaves the key [k] of the environment as it found it. *)
Definition keeps {A} (k : string) (f : World -> World * A) : Prop :=
  forall w, environ (f w).1 !! k = environ w !! k.

(** Every collaborator of the middleware keeps [k]. *)
Record all_keep (k : string) (lib : Library) (self : RoutesMiddleware) : Prop := {
  keep_GET : keeps k (Request_GET lib);
  keep_POST : keeps k (Request_POST lib);
  keep_config : keeps k (request_config lib (mapper self));
  keep_routematch : keeps k (routematch lib (mapper self));
  keep_URLGenerator : keeps k (URLGenerator lib (mapper self));
  keep_url_call : forall u name kw, keeps k (url_call lib u name kw);
  keep_app : keeps k (app self)
}.

(** The environments the wrapped application was invoked with *)
Fixpoint app_environs (t : list Event) : list Environ :=
  match t with
  | [] => []
  | EvApp e :: t' => e :: app_environs t'
  | _ :: t' => app_environs t'
  end.

(** How often the wrapped application was invoked *)
Definition app_calls (t : list Event) : nat := length (app_environs t).

(** An event that is not an invocation of the wrapped application *)
Definition not_app (ev : Environ -> Event) : Prop :=
  forall e, match ev e with EvApp _ => False | _ => True end.

(** A program never ends in the exception [e]. *)
Definition never_raises {A} (e : Exn) (p : St -> Outcome A * St) : Prop :=
  forall st st', p st <> (Raise e, st').

(** A program relates every state to the state it ends in, whatever the
    outcome. *)
Definition rel (R : St -> St -> Prop) {A} (p : M A) : Prop :=
  forall st, R st (p st).2.

(** The key [k] reads the same before and after. *)
Definition same_at (k : string) (st st' : St) : Prop :=
  environ (world st') !! k = environ (world st) !! k.

(** The trace only grows. *)
Definition trace_grows (st st' : St) : Prop :=
  exists t : list Event, trace st' = (trace st ++ t)%list.

(** The wrapped application is not invoked. *)
Definition no_app_call (st st' : St) : Prop :=
  app_environs (trace st') = app_environs (trace st).

(** The environment reads [v] at [k], and read [v] there whenever the
    wrapped application was invoked. *)
Definition app_saw (k : string) (v : option Value) (st : St) : Prop :=
  environ (world st) !! k = v /\ Forall (fun e : Environ => e !! k = v) (app_environs (trace st)).

(** [app_saw k v] is handed on. *)
Definition keeps_app_saw (k : string) (v : option Value) (st st' : St) : Prop :=
  app_saw k v st -> app_saw k v st'.

(** The keys the middleware publishes *)
Definition published_keys : list string :=
  ["wsgiorg.routing_args"; "routes.route"; "routes.url"].

(** The keys the path rewrite assigns *)
Definition path_keys : list string := ["PATH_INFO"; "SCRIPT_NAME"].

(** The match dict that goes on after line 115 *)
Definition published_match (match_ : option MatchDict) : MatchDict :=
  default ∅ match_.

(** The environment after lines 130-132 *)
Definition publish_env (url : URLGen) (match_ : MatchDict) (route : option Route)
    (e : Environ) : Environ :=
  <["routes.url" := VUrl url]>
    (<["routes.route" := route_value route]>
       (<["wsgiorg.routing_args" := VRoutingArgs url match_]> e)).

(** Whether lines 146-153 run for what the matcher found *)
Definition rewrites (self : RoutesMiddleware) (match_ : MatchDict)
    (route : option Route) : bool :=
  path_info self && bool_decide (is_Some (match_ !! "path_info"))
  && negb (from_option redirect false route).

(** The text before the first [;] of a content type, as the specification
    words it: what is left after the parameters are discarded. *)
Definition discard_parameters (content_type : string) : string :=
  split_head ";" content_type.

(** Stripping a suffix from the end of a string, as the specification
    words the prefix extension: [s] without [suffix] when [s] ends with
    it. *)
Fixpoint strip_suffix (suffix s : string) : option string :=
  if String.eqb s suffix then Some EmptyString
  else match s with
       | EmptyString => None
       | String c s' => option_map (String c) (strip_suffix suffix s')
       end.

(** A line feed occurs in [s]. *)
Fixpoint has_LF (s : string) : bool :=
  match s with
  | EmptyString => false
  | String c s' => Ascii.eqb c LF || has_LF s'
  end.

(** Lines 55-132 of [__call__]: everything before the redirect check.
    The result is what line 134 onwards works with. *)
Definition until_dispatch (lib : Library) (self : RoutesMiddleware)
    : M (URLGen * MatchDict * option Route) :=
  old_method <- method_override lib self ;;
  found <- run_matching lib self ;;
  restore_method old_method ;;;
  m <- inspect_match self found.1 found.2 ;;
  url <- publish lib self m found.2 ;;
  ret (url, m, found.2).

(** The world after lines 156-163, given what the application answered:
    the binding is gone after a normal return, and the world is as the
    application left it after a failure. *)
Definition after_app (answer : World * Outcome Response) : World :=
  match answer.2 with
  | Return _ => mkWorld (environ answer.1) false
  | Raise _ => answer.1
  end.

(** The state does not change. *)
Definition unchanged (st st' : St) : Prop := st' = st.

(** The events of a trace that satisfy [P] *)
Definition events (P : Event -> bool) (t : list Event) : list Event :=
  List.filter P t.

(** No event that satisfies [P] is added. *)
Definition quiet (P : Event -> bool) (st st' : St) : Prop :=
  events P (trace st') = events P (trace st).

(** The construction of a [Request] and the parsing of its parameters *)
Definition parser_event (ev : Event) : bool :=
  match ev with
  | EvRequestGET | EvRequestPOST => true
  | _ => false
  end.

(** The two calls of the redirect, the generator and [start_response] *)
Definition redirect_event (ev : Event) : bool :=
  match ev with
  | EvGenerate _ _ _ | EvStartResponse _ _ => true
  | _ => false
  end.

(** A collaborator leaves the route table's environment binding as it
    found it. *)
Definition keeps_binding {A} (f : World -> World * A) : Prop :=
  forall w, mapper_environ (f w).1 = mapper_environ w.

(** The path of lines 149-151 for a remainder *)
Definition slash_path (newpath : string) : string :=
  if startswith "/" newpath then newpath else "/" +:+ newpath.

(** ** Instances the statements are run on *)

(** Collaborators that leave the world alone: the parsers find the
    parameters [get] and [post], the matcher finds [found] and, in shared
    mode, binds the route table's environment.  The parameters of the
    instances are ASCII strings, on which [str.upper] is [ascii_upper]. *)
Definition plain_library (get post : Params)
    (found : option (option MatchDict * option Route)) : Library :=
  {| str_upper := ascii_upper;
     Request_GET := fun w => (w, get);
     Request_POST := fun w => (w, post);
     request_config := fun _ w =>
       (mkWorld (environ w) true, default (None, None) found);
     routematch := fun _ w => (w, found);
     URLGenerator := fun _ w => (w, 1);
     url_call := fun _ name _ w => (w, "/to/" +:+ name) |}.

(** What webob does to the environment when an attribute is assigned to
    a request, as in [req.errors = 'ignore'] (lines 72 and 83): the
    attribute goes into the dict kept under [webob.adhoc_attrs]. *)
Definition adhoc_attrs (w : World) : World :=
  let attrs := match environ w !! "webob.adhoc_attrs" with
               | Some (VDict d) => d
               | _ => ∅
               end in
  set_environ
    (<["webob.adhoc_attrs" := VDict (<["errors" := "ignore"]> attrs)]> (environ w)) w.

(** What the constructor of [URLGenerator] does to the environment: one
    without [SCRIPT_NAME] gets an empty one. *)
Definition default_script_name (w : World) : World :=
  match environ w !! "SCRIPT_NAME" with
  | Some _ => w
  | None => set_environ (<["SCRIPT_NAME" := VStr ""]> (environ w)) w
  end.

(** Collaborators that write to the environment as webob's [Request] and
    [URLGenerator] do; the matcher is the one of [plain_library]. *)
Definition writing_library (get post : Params)
    (found : option (option MatchDict * option Route)) : Library :=
  {| str_upper := ascii_upper;
     Request_GET := fun w => (adhoc_attrs w, get);
     Request_POST := fun w => (adhoc_attrs w, post);
     request_config := request_config (plain_library get post found);
     routematch := routematch (plain_library get post found);
     URLGenerator := fun _ w => (default_script_name w, 1);
     url_call := url_call (plain_library get post found) |}.

(** An application that answers, and one that fails. *)
Definition hello_app : World -> World * Outcome Response :=
  fun w => (w, Return ["hello"]).

Definition failing_app : World -> World * Outcome Response :=
  fun w => (w, Raise (AppError 0)).

Definition middleware (application : World -> World * Outcome Response)
    (shared debug : bool) : RoutesMiddleware :=
  {| app := application; mapper := 0; singleton := shared;
     use_method_override := true; path_info := true; log_debug := debug |}.

Definition request (method path query : string) : Environ :=
  <["REQUEST_METHOD" := VStr method]>
    (<["PATH_INFO" := VStr path]>
       (<["SCRIPT_NAME" := VStr ""]>
          (<["QUERY_STRING" := VStr query]> ∅))).

Definition form_request (path content_type : string) : Environ :=
  <["CONTENT_TYPE" := VStr content_type]> (request "POST" path "").

Definition start (e : Environ) : St := mkSt (mkWorld e false) [].

Definition blog_route : Route :=
  {| routepath := "blog/*path_info"; defaults := ∅; redirect := false;
     redirect_status := ""; route_id := 11 |}.

Definition moved_route : Route :=
  {| routepath := "old/:id"; defaults := ∅; redirect := true;
     redirect_status := "302 Found"; route_id := 42 |}.

(** * Verification *)

(** ** Stepping through the monad *)

Lemma bind_Return {A B} (m : M A) (k : A -> M B) st a st' :
  m st = (Return a, st') -> bind m k st = k a st'.
Proof. unfold bind. intros ->. reflexivity. Qed.

Lemma bind_Raise {A B} (m : M A) (k : A -> M B) st e st' :
  m st = (Raise e, st') -> bind m k st = (Raise e, st').
Proof. unfold bind. intros ->. reflexivity. Qed.

Lemma env_get_Some k v st :
  environ (world st) !! k = Some v -> env_get k st = (Return v, st).
Proof. unfold env_get. intros ->. reflexivity. Qed.

Lemma env_get_None k st :
  environ (world st) !! k = None -> env_get k st = (Raise (KeyError k), st).
Proof. unfold env_get. intros ->. reflexivity. Qed.

Lemma env_set_lookup k v st :
  environ (world (env_set k v st).2) !! k = Some v.
Proof. simpl. apply lookup_insert_eq. Qed.

(** ** Relating the state before to the state after

    One structural proof per part of [__call__], for any preorder on
    states that the primitive steps respect. *)

Section Rel.
Variable R : St -> St -> Prop.
Hypothesis R_refl : forall st, R st st.
Hypothesis R_trans : forall a b c, R a b -> R b c -> R a c.

Lemma rel_ret {A} (a : A) : rel R (ret a).
Proof. intros st. apply R_refl. Qed.

Lemma rel_raise {A} e : rel R (@raise A e).
Proof. intros st. apply R_refl. Qed.

Lemma rel_bind {A B} (m : M A) (k : A -> M B) :
  rel R m -> (forall a, rel R (k a)) -> rel R (bind m k).
Proof.
  intros Hm Hk st. unfold bind. specialize (Hm st).
  destruct (m st) as [[a|e] st']; simpl in *; [|exact Hm].
  eapply R_trans; [exact Hm|apply Hk].
Qed.

Lemma rel_try_except {A} (m : M A) caught h :
  rel R m -> rel R h -> rel R (try_except m caught h).
Proof.
  intros Hm Hh st. unfold try_except. specialize (Hm st).
  destruct (m st) as [[a|e] st']; simpl in *; [exact Hm|].
  destruct (caught e); simpl; [|exact Hm].
  eapply R_trans; [exact Hm|apply Hh].
Qed.

Lemma rel_env_get k : rel R (env_get k).
Proof. intros st. unfold env_get. destruct (_ !! _); apply R_refl. Qed.

Lemma rel_env_lookup k : rel R (env_lookup k).
Proof. intros st. apply R_refl. Qed.

Lemma rel_contains_method v : rel R (contains_method v).
Proof. destruct v; first [apply rel_ret | apply rel_raise]. Qed.

Lemma rel_str_operand v : rel R (str_operand v).
Proof. destruct v; first [apply rel_ret | apply rel_raise]. Qed.

Lemma rel_is_form_post : rel R is_form_post.
Proof.
  unfold is_form_post. apply rel_bind; [apply rel_env_lookup|intros ct].
  destruct (default _ ct); first [apply rel_ret | apply rel_raise].
Qed.

Variable lib : Library.
Variable self : RoutesMiddleware.

Hypothesis R_set_method : forall v, rel R (env_set "REQUEST_METHOD" v).
Hypothesis R_set_published :
  forall k v, k ∈ published_keys -> rel R (env_set k v).
Hypothesis R_set_path : forall k v, k ∈ path_keys -> rel R (env_set k v).
Hypothesis R_GET : rel R (call (fun _ => EvRequestGET) (Request_GET lib)).
Hypothesis R_POST : rel R (call (fun _ => EvRequestPOST) (Request_POST lib)).
Hypothesis R_config :
  rel R (call (EvMatch true (mapper self)) (request_config lib (mapper self))).
Hypothesis R_routematch :
  rel R (call (EvMatch false (mapper self)) (routematch lib (mapper self))).
Hypothesis R_URLGenerator :
  rel R (call (EvURLGenerator (mapper self)) (URLGenerator lib (mapper self))).
Hypothesis R_url_call :
  forall u name kw,
    rel R (call (fun _ => EvGenerate u name kw) (url_call lib u name kw)).
Hypothesis R_start_response : forall s h, rel R (start_response s h).
Hypothesis R_app : rel R (call_app self).
Hypothesis R_del : rel R del_mapper_environ.

Ltac rel_step :=
  first
    [ apply rel_ret | apply rel_raise | apply rel_env_get
    | apply rel_env_lookup | apply rel_contains_method | apply rel_str_operand
    | apply rel_is_form_post
    | apply rel_bind; [|intros ?]
    | apply rel_try_except ].

Lemma rel_log_args reads : rel R reads -> rel R (log_args self reads).
Proof. intros H. unfold log_args. destruct (log_debug self); [exact H|apply rel_ret]. Qed.

Lemma rel_override_with v : rel R (override_with lib self v).
Proof.
  unfold override_with. repeat rel_step.
  - apply R_set_method.
  - apply rel_log_args. repeat rel_step.
Qed.

Lemma rel_query_branch : rel R (query_branch lib self).
Proof.
  unfold query_branch. rel_step; [apply R_GET|].
  destruct (_ !! _); [apply rel_override_with|apply rel_ret].
Qed.

Lemma rel_form_branch : rel R (form_branch lib self).
Proof.
  unfold form_branch. rel_step; [rel_step|].
  destruct (is_str _ _); [|apply rel_ret].
  rel_step; [rel_step|]. destruct a0; [|apply rel_ret].
  rel_step; [apply R_POST|].
  destruct (_ !! _); [apply rel_override_with|apply rel_ret].
Qed.

Lemma rel_method_override : rel R (method_override lib self).
Proof.
  unfold method_override. destruct (use_method_override self); [|apply rel_ret].
  rel_step; [repeat rel_step|]. rel_step; [rel_step|].
  destruct a0; [apply rel_query_branch|apply rel_form_branch].
Qed.

Lemma rel_run_matching : rel R (run_matching lib self).
Proof.
  unfold run_matching. destruct (singleton self); [apply R_config|].
  rel_step; [apply R_routematch|].
  destruct a as [[m r]|]; apply rel_ret.
Qed.

Lemma rel_restore_method old : rel R (restore_method old).
Proof.
  unfold restore_method. destruct (truthy old); [apply R_set_method|apply rel_ret].
Qed.

Lemma rel_log_urlinfo : rel R log_urlinfo.
Proof. unfold log_urlinfo. repeat rel_step. Qed.

Lemma rel_inspect_match m r : rel R (inspect_match self m r).
Proof.
  unfold inspect_match.
  destruct m as [m|]; [destruct (bool_decide _)|]; rel_step;
    try apply rel_ret; apply rel_log_args; try apply rel_log_urlinfo.
  rel_step; [apply rel_log_urlinfo|]. destruct r; [apply rel_ret|apply rel_raise].
Qed.

Lemma rel_publish m r : rel R (publish lib self m r).
Proof.
  unfold publish. rel_step; [apply R_URLGenerator|].
  repeat rel_step; apply R_set_published; unfold published_keys; repeat constructor.
Qed.

Lemma rel_redirect_response url m r : rel R (redirect_response lib url m r).
Proof.
  unfold redirect_response. rel_step; [apply R_url_call|].
  rel_step; [apply R_start_response|apply rel_ret].
Qed.

Lemma rel_rewrite_path m : rel R (rewrite_path m).
Proof.
  unfold rewrite_path. rel_step; [rel_step|].
  rel_step; [apply R_set_path; unfold path_keys; repeat constructor|].
  rel_step.
  { destruct (startswith _ _); [apply rel_ret|].
    apply R_set_path; unfold path_keys; repeat constructor. }
  repeat rel_step. apply R_set_path; unfold path_keys; repeat constructor.
Qed.

(** Lines 156-163 *)
Lemma rel_app_and_cleanup :
  rel R (response <- call_app self ;;
         try_except del_mapper_environ is_AttributeError (ret tt) ;;;
         ret response).
Proof.
  rel_step; [apply R_app|]. rel_step; [|apply rel_ret].
  rel_step; [apply R_del|apply rel_ret].
Qed.

Lemma rel_forward m : rel R (forward self m).
Proof.
  unfold forward. rel_step; [|apply rel_app_and_cleanup].
  destruct (_ && _); [apply rel_rewrite_path|apply rel_ret].
Qed.

Lemma rel_dispatch url m r : rel R (dispatch lib self url m r).
Proof.
  unfold dispatch. destruct r as [r|]; [destruct (redirect r)|];
    first [apply rel_redirect_response|apply rel_forward].
Qed.

Lemma rel_after_restore m r : rel R (after_restore lib self m r).
Proof.
  unfold after_restore. rel_step; [apply rel_inspect_match|].
  rel_step; [apply rel_publish|apply rel_dispatch].
Qed.

Lemma rel_call : rel R (__call__ lib self).
Proof.
  unfold __call__. rel_step; [apply rel_method_override|].
  rel_step; [apply rel_run_matching|].
  rel_step; [apply rel_restore_method|apply rel_after_restore].
Qed.
End Rel.

(** ** The relations are preorders, and which steps respect them *)

Lemma app_environs_app t1 t2 :
  app_environs (t1 ++ t2) = (app_environs t1 ++ app_environs t2)%list.
Proof. induction t1 as [|[] t1 IH]; simpl; auto. f_equal. exact IH. Qed.

Lemma not_app_environs ev e : not_app ev -> app_environs [ev e] = [].
Proof. intros H. specialize (H e). simpl. destruct (ev e); tauto. Qed.

Section SameAt.
Variable k : string.

Lemma same_at_refl st : same_at k st st.
Proof. reflexivity. Qed.

Lemma same_at_trans a b c : same_at k a b -> same_at k b c -> same_at k a c.
Proof. unfold same_at. congruence. Qed.

Lemma same_at_set k' v : k' <> k -> rel (same_at k) (env_set k' v).
Proof. intros Hne st. unfold same_at. simpl. apply lookup_insert_ne, Hne. Qed.

Lemma same_at_call {A} ev (f : World -> World * A) :
  keeps k f -> rel (same_at k) (call ev f).
Proof.
  intros Hf st. unfold same_at, call. specialize (Hf (world st)).
  destruct (f (world st)) as [w' a]. exact Hf.
Qed.

Lemma same_at_start_response s h : rel (same_at k) (start_response s h).
Proof. intros st. reflexivity. Qed.

Lemma same_at_app self : keeps k (app self) -> rel (same_at k) (call_app self).
Proof.
  intros Hf st. unfold same_at, call_app. specialize (Hf (world st)).
  destruct (app self (world st)) as [w' a]. exact Hf.
Qed.

Lemma same_at_del : rel (same_at k) del_mapper_environ.
Proof.
  intros st. unfold same_at, del_mapper_environ.
  destruct (mapper_environ (world st)); reflexivity.
Qed.
End SameAt.

Lemma trace_grows_refl st : trace_grows st st.
Proof. exists []. symmetry. apply app_nil_r. Qed.

Lemma trace_grows_trans a b c : trace_grows a b -> trace_grows b c -> trace_grows a c.
Proof.
  intros [t1 H1] [t2 H2]. exists (t1 ++ t2)%list.
  rewrite H2, H1. symmetry. apply app_assoc.
Qed.

Lemma trace_grows_set k v : rel trace_grows (env_set k v).
Proof. intros st. exists []. simpl. symmetry. apply app_nil_r. Qed.

Lemma trace_grows_call {A} ev (f : World -> World * A) : rel trace_grows (call ev f).
Proof.
  intros st. unfold call. destruct (f (world st)) as [w' a].
  eexists. reflexivity.
Qed.

Lemma trace_grows_start_response s h : rel trace_grows (start_response s h).
Proof. intros st. eexists. reflexivity. Qed.

Lemma trace_grows_app self : rel trace_grows (call_app self).
Proof.
  intros st. unfold call_app. destruct (app self (world st)) as [w' a].
  eexists. reflexivity.
Qed.

Lemma trace_grows_del : rel trace_grows del_mapper_environ.
Proof.
  intros st. unfold del_mapper_environ.
  destruct (mapper_environ (world st)); exists []; simpl; symmetry; apply app_nil_r.
Qed.

Lemma no_app_call_refl st : no_app_call st st.
Proof. reflexivity. Qed.

Lemma no_app_call_trans a b c : no_app_call a b -> no_app_call b c -> no_app_call a c.
Proof. unfold no_app_call. congruence. Qed.

Lemma no_app_call_set k v : rel no_app_call (env_set k v).
Proof. intros st. reflexivity. Qed.

Lemma no_app_call_call {A} ev (f : World -> World * A) :
  not_app ev -> rel no_app_call (call ev f).
Proof.
  intros Hev st. unfold no_app_call, call. destruct (f (world st)) as [w' a].
  simpl. rewrite app_environs_app, (not_app_environs _ _ Hev). apply app_nil_r.
Qed.

Lemma no_app_call_start_response s h : rel no_app_call (start_response s h).
Proof. intros st. unfold no_app_call. simpl. rewrite app_environs_app. apply app_nil_r. Qed.

Lemma no_app_call_del : rel no_app_call del_mapper_environ.
Proof.
  intros st. unfold del_mapper_environ.
  destruct (mapper_environ (world st)); reflexivity.
Qed.

Section AppSaw.
Variable k : string.
Variable v : option Value.

Lemma keeps_app_saw_refl st : keeps_app_saw k v st st.
Proof. intros H. exact H. Qed.

Lemma keeps_app_saw_trans a b c :
  keeps_app_saw k v a b -> keeps_app_saw k v b c -> keeps_app_saw k v a c.
Proof. unfold keeps_app_saw. auto. Qed.

Lemma keeps_app_saw_set k' x : k' <> k -> rel (keeps_app_saw k v) (env_set k' x).
Proof.
  intros Hne st [He Ht]. split; [|exact Ht].
  simpl. rewrite lookup_insert_ne; [exact He|exact Hne].
Qed.

Lemma keeps_app_saw_call {A} ev (f : World -> World * A) :
  keeps k f -> not_app ev -> rel (keeps_app_saw k v) (call ev f).
Proof.
  intros Hf Hev st [He Ht]. unfold call. specialize (Hf (world st)).
  destruct (f (world st)) as [w' a]. split; simpl in *.
  - congruence.
  - rewrite app_environs_app, (not_app_environs _ _ Hev), app_nil_r. exact Ht.
Qed.

Lemma keeps_app_saw_start_response s h :
  rel (keeps_app_saw k v) (start_response s h).
Proof.
  intros st [He Ht]. split; [exact He|]. simpl.
  rewrite app_environs_app, app_nil_r. exact Ht.
Qed.

Lemma keeps_app_saw_app self :
  keeps k (app self) -> rel (keeps_app_saw k v) (call_app self).
Proof.
  intros Hf st [He Ht]. unfold call_app. specialize (Hf (world st)).
  destruct (app self (world st)) as [w' a]. split; simpl in *.
  - congruence.
  - rewrite app_environs_app. apply Forall_app. split; [exact Ht|].
    simpl. constructor; [exact He|constructor].
Qed.

Lemma keeps_app_saw_del : rel (keeps_app_saw k v) del_mapper_environ.
Proof.
  intros st H. unfold del_mapper_environ.
  destruct (mapper_environ (world st)); exact H.
Qed.
End AppSaw.

(** ** Strings *)

Lemma prefix_empty s : String.prefix "" s = true.
Proof. destruct s; reflexivity. Qed.

Lemma str_in_cons_separator c s :
  str_in ";" (String c s) = Ascii.eqb c ";" || str_in ";" s.
Proof.
  change (str_in ";" (String c s))
    with (String.prefix ";" (String c s) || str_in ";" s).
  f_equal.
  change (String.prefix ";" (String c s))
    with (if ascii_dec ";" c then String.prefix "" s else false).
  destruct (ascii_dec ";" c) as [<-|Hne].
  - rewrite prefix_empty. reflexivity.
  - symmetry. apply Ascii.eqb_neq. congruence.
Qed.

Lemma split_head_without_separator s :
  str_in ";" s = false -> split_head ";" s = s.
Proof.
  induction s as [|c s IH]; [reflexivity|].
  rewrite str_in_cons_separator. intros H.
  apply orb_false_elim in H as [Hc Hs].
  change (split_head ";" (String c s))
    with (if Ascii.eqb c ";" then EmptyString else String c (split_head ";" s)).
  rewrite Hc, (IH Hs). reflexivity.
Qed.

Lemma lower_char_separator c : Ascii.eqb (lower_char c) ";" = Ascii.eqb c ";".
Proof. destruct c as [[] [] [] [] [] [] [] []]; reflexivity. Qed.

Lemma split_head_lower s : split_head ";" (lower s) = lower (split_head ";" s).
Proof.
  unfold lower. induction s as [|c s IH]; [reflexivity|]. simpl.
  rewrite lower_char_separator. destruct (Ascii.eqb c ";"); [reflexivity|].
  simpl. f_equal. exact IH.
Qed.

Lemma form_content_type_split ct :
  form_content_type ct =
    String.eqb (lower (discard_parameters ct)) "application/x-www-form-urlencoded"
    || String.eqb (lower (discard_parameters ct)) "multipart/form-data".
Proof.
  unfold form_content_type, discard_parameters. rewrite <- split_head_lower.
  destruct (str_in ";" (lower ct)) eqn:E; [reflexivity|].
  rewrite (split_head_without_separator _ E). reflexivity.
Qed.

(** ** The trace of a call *)

Lemma run_matching_returns lib self st :
  exists found w,
    run_matching lib self st =
      (Return found,
       mkSt w (trace st ++ [EvMatch (singleton self) (mapper self) (environ (world st))])).
Proof.
  unfold run_matching. destruct (singleton self).
  - unfold call. destruct (request_config _ _ _) as [w found]. eauto.
  - unfold bind, call. destruct (routematch _ _ _) as [w [[m r]|]]; eauto.
Qed.

Lemma trace_grows_restore_method old : rel trace_grows (restore_method old).
Proof.
  apply rel_restore_method; auto using trace_grows_refl, trace_grows_set.
Qed.

Lemma trace_grows_after_restore lib self m r :
  rel trace_grows (after_restore lib self m r).
Proof.
  apply rel_after_restore;
    eauto using trace_grows_refl, trace_grows_trans, trace_grows_set,
      trace_grows_call, trace_grows_start_response, trace_grows_app,
      trace_grows_del.
Qed.

(** Once the method override is done, the matcher is the next
    collaborator called, on the environment the override left. *)
Lemma matching_follows_override lib self st old st1 :
  method_override lib self st = (Return old, st1) ->
  exists t,
    trace (__call__ lib self st).2 =
      (trace st1
       ++ [EvMatch (singleton self) (mapper self) (environ (world st1))] ++ t)%list.
Proof.
  intros Hmo. unfold __call__. rewrite (bind_Return _ _ _ _ _ Hmo).
  destruct (run_matching_returns lib self st1) as (found & w & Hrm).
  rewrite (bind_Return _ _ _ _ _ Hrm).
  assert (Hrest : rel trace_grows
            (restore_method old ;;; after_restore lib self found.1 found.2)).
  { apply (rel_bind _ trace_grows_trans);
      [apply trace_grows_restore_method|intros _; apply trace_grows_after_restore]. }
  destruct (Hrest (mkSt w (trace st1 ++
    [EvMatch (singleton self) (mapper self) (environ (world st1))]))) as [t Ht].
  exists t. rewrite Ht. simpl. rewrite <- app_assoc. reflexivity.
Qed.

(** ** Method override *)

Lemma never_raises_ret {A} e (a : A) : never_raises e (ret a).
Proof. intros st st'. discriminate. Qed.

Lemma never_raises_bind {A B} e (m : M A) (k : A -> M B) :
  never_raises e m -> (forall a, never_raises e (k a)) ->
  never_raises e (bind m k).
Proof.
  intros Hm Hk st st'. unfold bind. specialize (Hm st).
  destruct (m st) as [[a|e'] st1]; [apply Hk|].
  intros E. apply (Hm st1). congruence.
Qed.

Lemma never_raises_env_get e k : e <> KeyError k -> never_raises e (env_get k).
Proof.
  intros Hne st st'. unfold env_get. destruct (_ !! _); [discriminate|congruence].
Qed.

Lemma never_raises_env_set e k v : never_raises e (env_set k v).
Proof. intros st st'. discriminate. Qed.

Lemma never_raises_call {A} e ev (f : World -> World * A) :
  never_raises e (call ev f).
Proof. intros st st'. unfold call. destruct (f (world st)). discriminate. Qed.

Lemma never_raises_is_form_post k : never_raises (KeyError k) is_form_post.
Proof.
  unfold is_form_post.
  apply never_raises_bind; [intros st st'; discriminate|intros ct].
  intros st st'. destruct (default _ ct); discriminate.
Qed.

Lemma never_raises_override_with lib self v :
  never_raises (KeyError "QUERY_STRING") (override_with lib self v).
Proof.
  unfold override_with.
  apply never_raises_bind; [apply never_raises_env_get; discriminate|intros old].
  apply never_raises_bind; [apply never_raises_env_set|intros _].
  apply never_raises_bind; [|intros _; apply never_raises_ret].
  unfold log_args. destruct (log_debug self); [|apply never_raises_ret].
  apply never_raises_bind; [apply never_raises_env_get; discriminate|intros _].
  apply never_raises_ret.
Qed.

Lemma form_branch_no_query_error lib self :
  never_raises (KeyError "QUERY_STRING") (form_branch lib self).
Proof.
  unfold form_branch.
  apply never_raises_bind; [apply never_raises_env_get; discriminate|intros method].
  destruct (is_str method "POST"); [|apply never_raises_ret].
  apply never_raises_bind; [apply never_raises_is_form_post|].
  intros [|]; [|apply never_raises_ret].
  apply never_raises_bind; [apply never_raises_call|intros POST].
  destruct (POST !! "_method");
    [apply never_raises_override_with|apply never_raises_ret].
Qed.

Lemma override_with_spec lib self v orig st :
  environ (world st) !! "REQUEST_METHOD" = Some orig ->
  override_with lib self v st =
    (Return orig,
     mkSt (set_environ (<["REQUEST_METHOD" := VStr (str_upper lib v)]> (environ (world st)))
                       (world st))
          (trace st)).
Proof.
  intros H. unfold override_with, bind, log_args.
  rewrite (env_get_Some _ _ _ H). simpl.
  destruct (log_debug self); [|reflexivity].
  unfold env_get. simpl. rewrite lookup_insert_eq. reflexivity.
Qed.

(** C2.  With override detection on: a request without [QUERY_STRING] is
    handled exactly like one whose query string is empty (the form branch
    decides) and the missing key raises nothing; and when [_method] occurs
    in the raw query string and the parsed query has a [_method] parameter
    [v], the original method is what [method_override] returns for the later
    restoration, the environment's method becomes what [str.upper] makes of
    [v], and the matcher is then called on that environment. *)
Theorem query_string_override lib self st :
  use_method_override self = true ->
  (environ (world st) !! "QUERY_STRING" = None
   \/ environ (world st) !! "QUERY_STRING" = Some (VStr "") ->
   method_override lib self st = form_branch lib self st
   /\ forall st', method_override lib self st <> (Raise (KeyError "QUERY_STRING"), st'))
  /\ (forall qs v orig,
        environ (world st) !! "QUERY_STRING" = Some (VStr qs) ->
        str_in "_method" qs = true ->
        (Request_GET lib (world st)).2 !! "_method" = Some v ->
        environ (world st) !! "REQUEST_METHOD" = Some orig ->
        keeps "REQUEST_METHOD" (Request_GET lib) ->
        let w1 := (Request_GET lib (world st)).1 in
        let e1 := <["REQUEST_METHOD" := VStr (str_upper lib v)]> (environ w1) in
        method_override lib self st =
          (Return orig, mkSt (set_environ e1 w1) (trace st ++ [EvRequestGET]))
        /\ e1 !! "REQUEST_METHOD" = Some (VStr (str_upper lib v))
        /\ exists t,
             trace (__call__ lib self st).2 =
               (trace st
                ++ [EvRequestGET; EvMatch (singleton self) (mapper self) e1] ++ t)%list).
Proof.
  intros Huse. split.
  - intros Hqs.
    assert (E : method_override lib self st = form_branch lib self st).
    { unfold method_override. rewrite Huse. unfold bind at 1 2, try_except, env_get.
      destruct Hqs as [-> | ->]; reflexivity. }
    split; [exact E|]. intros st'. rewrite E. apply form_branch_no_query_error.
  - intros qs v orig Hqs Hin Hv Horig Hkeep w1 e1.
    assert (E : method_override lib self st =
              (Return orig, mkSt (set_environ e1 w1) (trace st ++ [EvRequestGET]))).
    { unfold method_override. rewrite Huse. unfold bind at 1 2, try_except, env_get.
      rewrite Hqs. simpl. rewrite Hin.
      unfold query_branch, bind, call. subst e1 w1.
      specialize (Hkeep (world st)).
      destruct (Request_GET lib (world st)) as [w GET]. simpl in *.
      rewrite Hv. rewrite (override_with_spec lib self v orig); [reflexivity|].
      simpl. congruence. }
    split; [exact E|]. split; [apply lookup_insert_eq|].
    destruct (matching_follows_override _ _ _ _ _ E) as [t Ht].
    exists t. rewrite Ht. simpl. rewrite <- app_assoc. reflexivity.
Qed.

Lemma query_string_override_witness :
  method_override (plain_library {["_method" := "put"]} ∅ None)
                  (middleware hello_app false false)
                  (start (request "GET" "/x" "a=1&_method=put"))
  = (Return (VStr "GET"),
     mkSt (mkWorld (<["REQUEST_METHOD" := VStr "PUT"]>
                      (request "GET" "/x" "a=1&_method=put")) false)
          [EvRequestGET])
  /\ method_override (plain_library ∅ ∅ None) (middleware hello_app false false)
                     (start (delete "QUERY_STRING" (request "GET" "/x" "")))
     = (Return VNone, start (delete "QUERY_STRING" (request "GET" "/x" ""))).
Proof.
  split.
  - destruct (query_string_override
                (plain_library {["_method" := "put"]} ∅ None)
                (middleware hello_app false false)
                (start (request "GET" "/x" "a=1&_method=put")) eq_refl)
      as [_ Hb].
    destruct (Hb "a=1&_method=put" "put" (VStr "GET")) as (H & _ & _);
      [vm_compute; reflexivity | vm_compute; reflexivity | vm_compute; reflexivity
      | vm_compute; reflexivity | intros w; reflexivity | exact H].
  - destruct (query_string_override
                (plain_library ∅ ∅ None) (middleware hello_app false false)
                (start (delete "QUERY_STRING" (request "GET" "/x" ""))) eq_refl)
      as [Ha _].
    destruct Ha as [H _]; [left; vm_compute; reflexivity|].
    rewrite H. vm_compute. reflexivity.
Defined.

(** C9.  When [_method] occurs in the raw query string but the parsed
    query has no [_method] parameter, nothing is overridden: no method is
    recorded, the middleware writes nothing to the environment, the only
    collaborator called is the query parser (the form body is not parsed,
    whatever the method, the content type and the body are), and the
    matcher and everything after it run without a restoration. *)
Theorem query_branch_excludes_form_branch lib self st qs :
  use_method_override self = true ->
  environ (world st) !! "QUERY_STRING" = Some (VStr qs) ->
  str_in "_method" qs = true ->
  (Request_GET lib (world st)).2 !! "_method" = None ->
  let st1 := mkSt (Request_GET lib (world st)).1 (trace st ++ [EvRequestGET]) in
  method_override lib self st = (Return VNone, st1)
  /\ __call__ lib self st =
       (found <- run_matching lib self ;;
        after_restore lib self found.1 found.2) st1.
Proof.
  intros Huse Hqs Hin Hnone st1.
  assert (E : method_override lib self st = (Return VNone, st1)).
  { unfold method_override. rewrite Huse. unfold bind at 1 2, try_except, env_get.
    rewrite Hqs. simpl. rewrite Hin. unfold query_branch, bind, call. subst st1.
    destruct (Request_GET lib (world st)) as [w GET]. simpl in *.
    rewrite Hnone. reflexivity. }
  split; [exact E|].
  unfold __call__. rewrite (bind_Return _ _ _ _ _ E).
  unfold bind. destruct (run_matching lib self st1) as [[found|e] st2]; reflexivity.
Qed.

Lemma query_branch_excludes_form_branch_witness :
  let lib := plain_library ∅ {["_method" := "delete"]} None in
  let self := middleware hello_app false false in
  let e := <["QUERY_STRING" := VStr "sort_method=asc"]>
             (form_request "/x" "application/x-www-form-urlencoded") in
  method_override lib self (start e) = (Return VNone, mkSt (mkWorld e false) [EvRequestGET]).
Proof.
  intros lib self e.
  destruct (query_branch_excludes_form_branch lib self (start e) "sort_method=asc")
    as [H _];
    [reflexivity | vm_compute; reflexivity | vm_compute; reflexivity
    | vm_compute; reflexivity | exact H].
Defined.

Lemma is_form_post_spec st ct :
  environ (world st) !! "CONTENT_TYPE" = Some (VStr ct) ->
  is_form_post st = (Return (form_content_type ct), st).
Proof.
  intros H. unfold is_form_post, bind, env_lookup. rewrite H. reflexivity.
Qed.



(** ** Restoring the method *)

Lemma bind_Return_inv {A B} (m : M A) (k : A -> M B) st b st' :
  bind m k st = (Return b, st') ->
  exists a st1, m st = (Return a, st1) /\ k a st1 = (Return b, st').
Proof. unfold bind. destruct (m st) as [[a|e] st1]; [eauto|discriminate]. Qed.

Lemma env_get_inv k st v st' :
  env_get k st = (Return v, st') -> environ (world st) !! k = Some v /\ st' = st.
Proof. unfold env_get. destruct (_ !! _); intros [= <- <-]; auto. Qed.

Lemma contains_method_inv v st found st' :
  contains_method v st = (Return found, st') -> st' = st.
Proof. destruct v; intros [= _ <-]; reflexivity. Qed.

Lemma query_string_inv st v st' :
  try_except (env_get "QUERY_STRING") is_KeyError (ret (VStr "")) st = (Return v, st') ->
  st' = st.
Proof.
  unfold try_except, env_get. destruct (_ !! _); simpl; intros [= <- <-]; auto.
Qed.

Lemma is_form_post_inv st b st' : is_form_post st = (Return b, st') -> st' = st.
Proof.
  unfold is_form_post. intros H.
  apply bind_Return_inv in H as (ct & s1 & Hl & H).
  injection Hl as _ <-. destruct (default _ ct); injection H as _ <-; reflexivity.
Qed.

Lemma call_inv {A} ev (f : World -> World * A) st a st' :
  call ev f st = (Return a, st') ->
  a = (f (world st)).2
  /\ st' = mkSt (f (world st)).1 (trace st ++ [ev (environ (world st))]).
Proof. unfold call. destruct (f (world st)). intros [= <- <-]. auto. Qed.

Lemma override_with_old lib self v st old st1 :
  override_with lib self v st = (Return old, st1) ->
  environ (world st) !! "REQUEST_METHOD" = Some old.
Proof.
  destruct (environ (world st) !! "REQUEST_METHOD") as [orig|] eqn:E.
  - rewrite (override_with_spec _ _ _ _ _ E). intros [= <- _]. reflexivity.
  - unfold override_with. rewrite (bind_Raise _ _ _ _ _ (env_get_None _ _ E)).
    discriminate.
Qed.

(** What [method_override] records is nothing or the method of the
    request. *)
Lemma method_override_old lib self st old st1 :
  keeps "REQUEST_METHOD" (Request_GET lib) ->
  keeps "REQUEST_METHOD" (Request_POST lib) ->
  method_override lib self st = (Return old, st1) ->
  old = VNone \/ environ (world st) !! "REQUEST_METHOD" = Some old.
Proof.
  intros HG HP. unfold method_override.
  destruct (use_method_override self); [|intros [= <- _]; auto].
  intros H. apply bind_Return_inv in H as (qv & s1 & H1 & H).
  apply query_string_inv in H1 as ->.
  apply bind_Return_inv in H as (found & s2 & H2 & H).
  apply contains_method_inv in H2 as ->.
  destruct found.
  - unfold query_branch in H.
    apply bind_Return_inv in H as (GET & s3 & Hc & H).
    apply call_inv in Hc as [-> ->].
    destruct (_ !! "_method"); [|injection H as <- _; auto].
    apply override_with_old in H. simpl in H. rewrite HG in H. auto.
  - unfold form_branch in H.
    apply bind_Return_inv in H as (method & s3 & Hm & H).
    apply env_get_inv in Hm as [_ ->].
    destruct (is_str method "POST"); [|injection H as <- _; auto].
    apply bind_Return_inv in H as (form & s4 & Hf & H).
    apply is_form_post_inv in Hf as ->.
    destruct form; [|injection H as <- _; auto].
    apply bind_Return_inv in H as (POST & s5 & Hc & H).
    apply call_inv in Hc as [-> ->].
    destruct (_ !! "_method"); [|injection H as <- _; auto].
    apply override_with_old in H. simpl in H. rewrite HP in H. auto.
Qed.

Lemma restore_method_returns old st :
  restore_method old st = (Return tt, (restore_method old st).2).
Proof. unfold restore_method. destruct (truthy old); reflexivity. Qed.

Lemma truthy_str m : m <> "" -> truthy (VStr m) = true.
Proof. intros H. simpl. destruct (String.eqb_spec m ""); [contradiction|reflexivity]. Qed.

Lemma no_app_call_method_override lib self : rel no_app_call (method_override lib self).
Proof.
  apply rel_method_override.
  - exact no_app_call_refl.
  - exact no_app_call_trans.
  - exact (no_app_call_set _).
  - refine (no_app_call_call _ _ _). intros e. exact I.
  - refine (no_app_call_call _ _ _). intros e. exact I.
Qed.

Lemma no_app_call_run_matching lib self : rel no_app_call (run_matching lib self).
Proof.
  apply rel_run_matching.
  - exact no_app_call_refl.
  - exact no_app_call_trans.
  - refine (no_app_call_call _ _ _). intros e. exact I.
  - refine (no_app_call_call _ _ _). intros e. exact I.
Qed.

Lemma no_app_call_restore_method old : rel no_app_call (restore_method old).
Proof.
  apply rel_restore_method; [exact no_app_call_refl|exact (no_app_call_set _)].
Qed.

(** After the method is restored nothing the middleware does writes it,
    and when the collaborators called from there on keep it too, it reads
    the same at the end and read the same whenever the application was
    invoked. *)
Lemma app_saw_after_restore lib self k v m r :
  k ∉ (path_keys ++ published_keys)%list ->
  keeps k (URLGenerator lib (mapper self)) ->
  (forall u name kw, keeps k (url_call lib u name kw)) ->
  keeps k (app self) ->
  rel (keeps_app_saw k v) (after_restore lib self m r).
Proof.
  intros Hk HU Hc Ha. unfold after_restore.
  assert (Hset : forall k' x, k' ∈ (path_keys ++ published_keys)%list ->
                              rel (keeps_app_saw k v) (env_set k' x)).
  { intros k' x Hin. apply keeps_app_saw_set. intros ->. contradiction. }
  pose proof (keeps_app_saw_refl k v) as Hrefl.
  pose proof (keeps_app_saw_trans k v) as Htrans.
  apply (rel_bind _ Htrans).
  { apply rel_inspect_match; assumption. }
  intros m'. apply (rel_bind _ Htrans).
  { apply rel_publish; try assumption.
    - intros k' x Hin. apply Hset, elem_of_app. auto.
    - refine (keeps_app_saw_call _ _ _ _ HU _). intros e. exact I. }
  intros url. apply rel_dispatch; try assumption.
  - intros k' x Hin. apply Hset, elem_of_app. auto.
  - intros u name kw. refine (keeps_app_saw_call _ _ _ _ (Hc u name kw) _).
    intros e. exact I.
  - apply keeps_app_saw_start_response.
  - apply keeps_app_saw_app, Ha.
  - apply keeps_app_saw_del.
Qed.

(** C1.  Take a request whose method is the non-empty string [m], as WSGI
    requires, and parsers that leave the method alone.  When
    [method_override] recorded a method, it recorded [m]; once the matcher
    has returned, whatever it found, the method is [m] again in the state in
    which lines 114-163, the only ones that look at the match result, start.
    When the collaborators called from there on keep the method as well, the
    wrapped application sees [m] if it is invoked, and the environment's
    method is [m] when the middleware is done, with any outcome. *)
Theorem method_restored_after_matching lib self st m old st1 found st2 :
  environ (world st) !! "REQUEST_METHOD" = Some (VStr m) ->
  m <> "" ->
  keeps "REQUEST_METHOD" (Request_GET lib) ->
  keeps "REQUEST_METHOD" (Request_POST lib) ->
  method_override lib self st = (Return old, st1) ->
  old <> VNone ->
  run_matching lib self st1 = (Return found, st2) ->
  let st3 := (restore_method old st2).2 in
  old = VStr m
  /\ environ (world st3) !! "REQUEST_METHOD" = Some (VStr m)
  /\ __call__ lib self st = after_restore lib self found.1 found.2 st3
  /\ (keeps "REQUEST_METHOD" (URLGenerator lib (mapper self)) ->
      (forall u name kw, keeps "REQUEST_METHOD" (url_call lib u name kw)) ->
      keeps "REQUEST_METHOD" (app self) ->
      app_environs (trace st) = [] ->
      app_saw "REQUEST_METHOD" (Some (VStr m)) (__call__ lib self st).2).
Proof.
  intros Hm Hne HG HP Hmo Hold Hrm st3.
  assert (Eold : old = VStr m).
  { destruct (method_override_old _ _ _ _ _ HG HP Hmo) as [E|E]; congruence. }
  assert (E3 : environ (world st3) !! "REQUEST_METHOD" = Some (VStr m)).
  { subst st3 old. unfold restore_method. rewrite (truthy_str _ Hne).
    apply env_set_lookup. }
  assert (Ecall : __call__ lib self st = after_restore lib self found.1 found.2 st3).
  { unfold __call__. rewrite (bind_Return _ _ _ _ _ Hmo), (bind_Return _ _ _ _ _ Hrm).
    rewrite (bind_Return _ _ _ _ _ (restore_method_returns old st2)). reflexivity. }
  split; [exact Eold|]. split; [exact E3|]. split; [exact Ecall|].
  intros HU Hc Ha Ht. rewrite Ecall.
  apply app_saw_after_restore; try assumption.
  { unfold path_keys, published_keys. simpl.
    repeat (apply not_elem_of_cons; split; [discriminate|]). apply not_elem_of_nil. }
  split; [exact E3|].
  assert (Et : app_environs (trace st3) = app_environs (trace st)).
  { pose proof (no_app_call_method_override lib self st) as H1.
    pose proof (no_app_call_run_matching lib self st1) as H2.
    pose proof (no_app_call_restore_method old st2) as H3.
    rewrite Hmo in H1. rewrite Hrm in H2. unfold no_app_call in *. simpl in *.
    subst st3. congruence. }
  rewrite Et, Ht. constructor.
Qed.

Lemma method_restored_after_matching_witness :
  let lib := plain_library {["_method" := "put"]} ∅ None in
  let self := middleware hello_app false false in
  let st := start (request "GET" "/x" "_method=put") in
  environ (world (method_override lib self st).2) !! "REQUEST_METHOD" = Some (VStr "PUT")
  /\ app_saw "REQUEST_METHOD" (Some (VStr "GET")) (__call__ lib self st).2.
Proof.
  intros lib self st. split; [vm_compute; reflexivity|].
  pose (st1 := (method_override lib self st).2).
  pose (st2 := (run_matching lib self st1).2).
  destruct (method_restored_after_matching lib self st "GET" (VStr "GET") st1
              (None, None) st2) as (_ & _ & _ & H).
  - vm_compute; reflexivity.
  - discriminate.
  - intros w; reflexivity.
  - intros w; reflexivity.
  - vm_compute; reflexivity.
  - discriminate.
  - vm_compute; reflexivity.
  - apply H; [intros w; reflexivity|intros u name kw w; reflexivity
             |intros w; reflexivity|reflexivity].
Defined.

(** The hypothesis on the method is needed: line 111 tests the truth
    value of [old_method], so an empty method, which WSGI rules out, is
    recorded and not put back. *)
Lemma empty_method_not_restored :
  environ (world (__call__ (plain_library {["_method" := "put"]} ∅ None)
                           (middleware hello_app false false)
                           (start (request "" "/x" "_method=put"))).2)
    !! "REQUEST_METHOD" = Some (VStr "PUT").
Proof. vm_compute. reflexivity. Qed.

(** ** Publishing and dispatch *)

Lemma unchanged_log_urlinfo : rel unchanged log_urlinfo.
Proof. apply rel_log_urlinfo; unfold unchanged; congruence. Qed.

Lemma unchanged_inspect_match self mt route : rel unchanged (inspect_match self mt route).
Proof. apply rel_inspect_match; unfold unchanged; congruence. Qed.

Lemma inspect_match_inv self mt route st m st' :
  inspect_match self mt route st = (Return m, st') ->
  m = published_match mt /\ st' = st.
Proof.
  intros H. pose proof (unchanged_inspect_match self mt route st) as Hst.
  rewrite H in Hst. split; [|exact Hst]. clear Hst.
  unfold inspect_match in H. destruct mt as [m0|]; simpl.
  - destruct (bool_decide (m0 = ∅)) eqn:E.
    + apply bool_decide_eq_true in E as ->.
      apply bind_Return_inv in H as (_ & _ & _ & [= <- _]). reflexivity.
    + apply bind_Return_inv in H as (_ & _ & _ & [= <- _]). reflexivity.
  - apply bind_Return_inv in H as (_ & _ & _ & [= <- _]). reflexivity.
Qed.

Lemma log_urlinfo_present st :
  is_Some (environ (world st) !! "REQUEST_METHOD") ->
  is_Some (environ (world st) !! "PATH_INFO") ->
  log_urlinfo st = (Return tt, st).
Proof.
  intros [v1 H1] [v2 H2]. unfold log_urlinfo.
  rewrite (bind_Return _ _ _ _ _ (env_get_Some _ _ _ H1)).
  rewrite (bind_Return _ _ _ _ _ (env_get_Some _ _ _ H2)). reflexivity.
Qed.

(** Lines 114-126 raise nothing when debug logging is off, or when the
    two keys of the log line are there and a route came with the match. *)
Lemma inspect_match_returns self mt route st :
  (log_debug self = true ->
   is_Some (environ (world st) !! "REQUEST_METHOD")
   /\ is_Some (environ (world st) !! "PATH_INFO")) ->
  mt = None \/ is_Some route ->
  inspect_match self mt route st = (Return (published_match mt), st).
Proof.
  intros Hlog Hroute. unfold inspect_match, log_args.
  destruct (log_debug self).
  - destruct (Hlog eq_refl) as [H1 H2].
    pose proof (log_urlinfo_present st H1 H2) as Hu.
    destruct mt as [m|]; simpl.
    + destruct (bool_decide (m = ∅)) eqn:E.
      * apply bool_decide_eq_true in E as ->.
        rewrite (bind_Return _ _ _ _ _ Hu). reflexivity.
      * destruct Hroute as [?|[r ->]]; [discriminate|].
        unfold bind at 1 2. rewrite Hu. reflexivity.
    + rewrite (bind_Return _ _ _ _ _ Hu). reflexivity.
  - destruct mt as [m|]; simpl; [|reflexivity].
    destruct (bool_decide (m = ∅)) eqn:E; [|reflexivity].
    apply bool_decide_eq_true in E as ->. reflexivity.
Qed.

Lemma publish_spec lib self m route st :
  let made := URLGenerator lib (mapper self) (world st) in
  publish lib self m route st =
    (Return made.2,
     mkSt (set_environ (publish_env made.2 m route (environ made.1)) made.1)
          (trace st ++ [EvURLGenerator (mapper self) (environ (world st))])).
Proof.
  unfold publish, bind, call. simpl.
  destruct (URLGenerator lib (mapper self) (world st)) as [w url]. reflexivity.
Qed.

Lemma publish_env_lookup url m route e :
  publish_env url m route e !! "wsgiorg.routing_args" = Some (VRoutingArgs url m)
  /\ publish_env url m route e !! "routes.route" = Some (route_value route)
  /\ publish_env url m route e !! "routes.url" = Some (VUrl url).
Proof.
  unfold publish_env. repeat split.
  - rewrite !lookup_insert_ne by discriminate. apply lookup_insert_eq.
  - rewrite lookup_insert_ne by discriminate. apply lookup_insert_eq.
  - apply lookup_insert_eq.
Qed.

Lemma redirect_response_spec lib url m r st :
  let name := "_redirect_" +:+ str_of_nat (route_id r) in
  let answer := url_call lib url name m (world st) in
  redirect_response lib url m r st =
    (Return [],
     mkSt answer.1
          (trace st ++ [EvGenerate url name m;
                        EvStartResponse (redirect_status r)
                          [("Content-Type", "text/plain; charset=utf8");
                           ("Location", answer.2)]])).
Proof.
  unfold redirect_response, bind, call, start_response. simpl.
  destruct (url_call lib url _ m (world st)) as [w location]. simpl.
  rewrite <- app_assoc. reflexivity.
Qed.

Lemma app_and_cleanup_spec self st :
  (response <- call_app self ;;
   try_except del_mapper_environ is_AttributeError (ret tt) ;;;
   ret response) st
  = ((app self (world st)).2,
     mkSt (after_app (app self (world st)))
          (trace st ++ [EvApp (environ (world st))])).
Proof.
  unfold bind, call_app, after_app.
  destruct (app self (world st)) as [[e b] [response|exn]]; simpl; [|reflexivity].
  unfold try_except, del_mapper_environ. simpl. destruct b; reflexivity.
Qed.

Lemma call_until_dispatch lib self st :
  __call__ lib self st =
    (x <- until_dispatch lib self ;; dispatch lib self x.1.1 x.1.2 x.2) st.
Proof.
  unfold __call__, until_dispatch, after_restore, bind.
  destruct (method_override lib self st) as [[old|e] st1]; [|reflexivity].
  destruct (run_matching lib self st1) as [[found|e] st2]; [|reflexivity].
  destruct (restore_method old st2) as [[[]|e] st3]; [|reflexivity].
  destruct (inspect_match self found.1 found.2 st3) as [[m|e] st4]; [|reflexivity].
  destruct (publish lib self m found.2 st4) as [[url|e] st5]; reflexivity.
Qed.

(** Once lines 55-126 are through, the call is the construction of the
    generator, the three assignments, and line 134 onwards. *)
Lemma call_after_inspection lib self st old st1 found st2 m st4 :
  method_override lib self st = (Return old, st1) ->
  run_matching lib self st1 = (Return found, st2) ->
  inspect_match self found.1 found.2 (restore_method old st2).2 = (Return m, st4) ->
  let made := URLGenerator lib (mapper self) (world st4) in
  __call__ lib self st =
    dispatch lib self made.2 m found.2
      (mkSt (set_environ (publish_env made.2 m found.2 (environ made.1)) made.1)
            (trace st4 ++ [EvURLGenerator (mapper self) (environ (world st4))])).
Proof.
  intros Hmo Hrm Hi made.
  unfold __call__. rewrite (bind_Return _ _ _ _ _ Hmo), (bind_Return _ _ _ _ _ Hrm).
  rewrite (bind_Return _ _ _ _ _ (restore_method_returns old st2)).
  unfold after_restore. rewrite (bind_Return _ _ _ _ _ Hi).
  rewrite (bind_Return _ _ _ _ _ (publish_spec lib self m found.2 st4)).
  reflexivity.
Qed.

(** Lines 55-126 raise nothing for a request that has its method, whose
    query string and content type are strings where present, with parsers
    that keep the method and with debug logging off. *)
Lemma method_override_returns lib self st method :
  environ (world st) !! "REQUEST_METHOD" = Some method ->
  (forall q, environ (world st) !! "QUERY_STRING" = Some q -> exists s, q = VStr s) ->
  (forall c, environ (world st) !! "CONTENT_TYPE" = Some c -> exists s, c = VStr s) ->
  keeps "REQUEST_METHOD" (Request_GET lib) ->
  keeps "REQUEST_METHOD" (Request_POST lib) ->
  exists old st1, method_override lib self st = (Return old, st1).
Proof.
  intros Hm Hq Hc HG HP. unfold method_override.
  destruct (use_method_override self); [|eexists _, _; reflexivity].
  assert (Hov : forall v st0,
            environ (world st0) !! "REQUEST_METHOD" = Some method ->
            exists old st1, override_with lib self v st0 = (Return old, st1)).
  { intros v st0 E. rewrite (override_with_spec _ _ _ _ _ E). eauto. }
  assert (E1 : exists qs,
            try_except (env_get "QUERY_STRING") is_KeyError (ret (VStr "")) st
            = (Return (VStr qs), st)).
  { unfold try_except, env_get.
    destruct (environ (world st) !! "QUERY_STRING") as [q|] eqn:E; simpl.
    - destruct (Hq q eq_refl) as [s ->]. eauto.
    - eauto. }
  destruct E1 as [qs E1]. rewrite (bind_Return _ _ _ _ _ E1). simpl.
  unfold bind at 1. simpl. destruct (str_in "_method" qs).
  - unfold query_branch, bind at 1, call. specialize (HG (world st)).
    destruct (Request_GET lib (world st)) as [w GET]. simpl in HG.
    destruct (GET !! "_method"); [|eexists _, _; reflexivity].
    apply Hov. simpl. congruence.
  - unfold form_branch. rewrite (bind_Return _ _ _ _ _ (env_get_Some _ _ _ Hm)).
    destruct (is_str method "POST"); [|eexists _, _; reflexivity].
    assert (E2 : exists form, is_form_post st = (Return form, st)).
    { unfold is_form_post, bind, env_lookup.
      destruct (environ (world st) !! "CONTENT_TYPE") as [c|] eqn:E; simpl.
      - destruct (Hc c eq_refl) as [s ->]. simpl. eauto.
      - eauto. }
    destruct E2 as [form E2]. rewrite (bind_Return _ _ _ _ _ E2).
    destruct form; [|eexists _, _; reflexivity].
    unfold bind at 1, call. specialize (HP (world st)).
    destruct (Request_POST lib (world st)) as [w POST]. simpl in HP.
    destruct (POST !! "_method"); [|eexists _, _; reflexivity].
    apply Hov. simpl. congruence.
Qed.

Lemma inspect_match_debug_off self mt route st :
  log_debug self = false ->
  inspect_match self mt route st = (Return (published_match mt), st).
Proof.
  intros Hoff. unfold inspect_match, log_args. rewrite Hoff.
  destruct mt as [m|]; simpl; [|reflexivity].
  destruct (bool_decide (m = ∅)) eqn:E; [|reflexivity].
  apply bool_decide_eq_true in E as ->. reflexivity.
Qed.

(** C8.  Whatever the matcher found (a match or none, a redirect route
    or not), once lines 55-126 are through, a URL generator is constructed
    from the route table and the environment, the generator, the match dict
    and the route are stored under the three keys, and only then line 134
    onwards, which starts with the redirect check, runs. *)
Theorem generator_published_before_dispatch lib self st old st1 found st2 m st4 :
  method_override lib self st = (Return old, st1) ->
  run_matching lib self st1 = (Return found, st2) ->
  inspect_match self found.1 found.2 (restore_method old st2).2 = (Return m, st4) ->
  let made := URLGenerator lib (mapper self) (world st4) in
  let url := made.2 in
  let e5 := publish_env url m found.2 (environ made.1) in
  let st5 := mkSt (set_environ e5 made.1)
                  (trace st4 ++ [EvURLGenerator (mapper self) (environ (world st4))]) in
  m = published_match found.1
  /\ __call__ lib self st = dispatch lib self url m found.2 st5
  /\ e5 !! "wsgiorg.routing_args" = Some (VRoutingArgs url m)
  /\ e5 !! "routes.route" = Some (route_value found.2)
  /\ e5 !! "routes.url" = Some (VUrl url).
Proof.
  intros Hmo Hrm Hi made url e5 st5.
  split; [apply (inspect_match_inv _ _ _ _ _ _ Hi)|].
  split; [|apply publish_env_lookup].
  apply (call_after_inspection _ _ _ _ _ _ _ _ _ Hmo Hrm Hi).
Qed.

Lemma generator_published_before_dispatch_witness :
  let lib := plain_library ∅ ∅ (Some (Some {["id" := Some "7"]}, Some moved_route)) in
  let self := middleware hello_app true true in
  let st := start (request "GET" "/old/7" "") in
  (__call__ lib self st).1 = Return []
  /\ environ (world (__call__ lib self st).2) !! "routes.route" = Some (VRoute moved_route)
  /\ environ (world (__call__ lib self st).2) !! "routes.url" = Some (VUrl 1).
Proof.
  intros lib self st.
  pose (st1 := (method_override lib self st).2).
  pose (st2 := (run_matching lib self st1).2).
  destruct (generator_published_before_dispatch lib self st VNone st1
              (Some {["id" := Some "7"]}, Some moved_route) st2
              {["id" := Some "7"]} (restore_method VNone st2).2)
    as (_ & Hcall & _ & _ & _).
  - vm_compute; reflexivity.
  - vm_compute; reflexivity.
  - vm_compute; reflexivity.
  - rewrite Hcall. vm_compute. repeat split; reflexivity.
Defined.

(** For a request that has its method, whose query string and content
    type are strings where present, with parsers that keep the method and
    with debug logging off, lines 55-126 are through: the generator is
    constructed and the three keys are written on every such request. *)
Corollary every_request_publishes lib self st method :
  environ (world st) !! "REQUEST_METHOD" = Some method ->
  (forall q, environ (world st) !! "QUERY_STRING" = Some q -> exists s, q = VStr s) ->
  (forall c, environ (world st) !! "CONTENT_TYPE" = Some c -> exists s, c = VStr s) ->
  keeps "REQUEST_METHOD" (Request_GET lib) ->
  keeps "REQUEST_METHOD" (Request_POST lib) ->
  log_debug self = false ->
  exists url m route st4 w5,
    let e5 := publish_env url m route (environ w5) in
    URLGenerator lib (mapper self) (world st4) = (w5, url)
    /\ __call__ lib self st =
         dispatch lib self url m route
           (mkSt (set_environ e5 w5)
                 (trace st4 ++ [EvURLGenerator (mapper self) (environ (world st4))]))
    /\ e5 !! "wsgiorg.routing_args" = Some (VRoutingArgs url m)
    /\ e5 !! "routes.route" = Some (route_value route)
    /\ e5 !! "routes.url" = Some (VUrl url).
Proof.
  intros Hm Hq Hc HG HP Hoff.
  destruct (method_override_returns lib self st method Hm Hq Hc HG HP)
    as (old & st1 & Hmo).
  destruct (run_matching_returns lib self st1) as (found & w2 & Hrm).
  pose proof (inspect_match_debug_off self found.1 found.2
                (restore_method old (mkSt w2 (trace st1 ++
                   [EvMatch (singleton self) (mapper self) (environ (world st1))]))).2
                Hoff) as Hi.
  pose proof (call_after_inspection _ _ _ _ _ _ _ _ _ Hmo Hrm Hi) as Hcall.
  cbv zeta in Hcall.
  set (st4 := (restore_method old _).2) in *.
  destruct (URLGenerator lib (mapper self) (world st4)) as [w5 url] eqn:EU.
  exists url, (published_match found.1), found.2, st4, w5.
  split; [exact EU|]. split; [exact Hcall|]. apply publish_env_lookup.
Qed.

(** The log line of a debug run reads [PATH_INFO]: without the key the
    call ends there, in a [KeyError]. *)
Lemma debug_log_needs_path_info :
  (__call__ (plain_library ∅ ∅ None) (middleware hello_app false true)
            (start (delete "PATH_INFO" (request "GET" "" "")))).1
  = Raise (KeyError "PATH_INFO").
Proof. vm_compute. reflexivity. Qed.

(** C4.  When the matcher found a route with the redirect flag, and the
    log line of a debug run finds its two keys, the middleware answers with
    the route's redirect status, the two headers [Content-Type] and
    [Location], the latter being what the URL generator returns for
    [_redirect_<id>] and the matched variables, and the empty body; the
    calls it makes after matching are the generator's constructor, the
    generator and [start_response], and the wrapped application is not
    invoked. *)
Theorem redirect_short_circuit lib self st old st1 mt r st2 :
  method_override lib self st = (Return old, st1) ->
  run_matching lib self st1 = (Return (mt, Some r), st2) ->
  redirect r = true ->
  let st3 := (restore_method old st2).2 in
  (log_debug self = true ->
   is_Some (environ (world st3) !! "REQUEST_METHOD")
   /\ is_Some (environ (world st3) !! "PATH_INFO")) ->
  let made := URLGenerator lib (mapper self) (world st3) in
  let url := made.2 in
  let m := published_match mt in
  let w5 := set_environ (publish_env url m (Some r) (environ made.1)) made.1 in
  let name := "_redirect_" +:+ str_of_nat (route_id r) in
  let answer := url_call lib url name m w5 in
  __call__ lib self st =
    (Return [],
     mkSt answer.1
          (trace st3
           ++ [EvURLGenerator (mapper self) (environ (world st3));
               EvGenerate url name m;
               EvStartResponse (redirect_status r)
                 [("Content-Type", "text/plain; charset=utf8");
                  ("Location", answer.2)]]))
  /\ app_calls (trace (__call__ lib self st).2) = app_calls (trace st).
Proof.
  intros Hmo Hrm Hred st3 Hlog made url m w5 name answer.
  assert (Hi : inspect_match self mt (Some r) st3 = (Return m, st3)).
  { apply inspect_match_returns; [exact Hlog|right; eauto]. }
  pose proof (call_after_inspection lib self st old st1
                (mt, Some r) st2 m st3 Hmo Hrm Hi) as Hcall.
  assert (E : __call__ lib self st =
    (Return [],
     mkSt answer.1
          (trace st3
           ++ [EvURLGenerator (mapper self) (environ (world st3));
               EvGenerate url name m;
               EvStartResponse (redirect_status r)
                 [("Content-Type", "text/plain; charset=utf8");
                  ("Location", answer.2)]]))).
  { rewrite Hcall. simpl. rewrite Hred, redirect_response_spec. simpl.
    rewrite <- app_assoc. reflexivity. }
  split; [exact E|]. rewrite E. unfold app_calls. simpl.
  rewrite app_environs_app. simpl. rewrite app_nil_r.
  pose proof (no_app_call_method_override lib self st) as H1.
  pose proof (no_app_call_run_matching lib self st1) as H2.
  pose proof (no_app_call_restore_method old st2) as H3.
  rewrite Hmo in H1. rewrite Hrm in H2. unfold no_app_call in *. simpl in *.
  subst st3. congruence.
Qed.

Lemma redirect_short_circuit_witness :
  let lib := plain_library ∅ ∅ (Some (Some {["id" := Some "7"]}, Some moved_route)) in
  let self := middleware hello_app true true in
  let st := start (request "GET" "/old/7" "") in
  (__call__ lib self st).1 = Return []
  /\ last (trace (__call__ lib self st).2) =
       Some (EvStartResponse "302 Found"
               [("Content-Type", "text/plain; charset=utf8");
                ("Location", "/to/_redirect_42")])
  /\ app_calls (trace (__call__ lib self st).2) = 0.
Proof.
  intros lib self st.
  pose (st1 := (method_override lib self st).2).
  pose (st2 := (run_matching lib self st1).2).
  destruct (redirect_short_circuit lib self st VNone st1
              (Some {["id" := Some "7"]}) moved_route st2) as [Hcall Happ].
  - vm_compute; reflexivity.
  - vm_compute; reflexivity.
  - reflexivity.
  - intros _. split; eexists; vm_compute; reflexivity.
  - split; [rewrite Hcall; reflexivity|]. split; [rewrite Hcall; vm_compute; reflexivity|].
    rewrite Happ. reflexivity.
Defined.

Lemma forward_without_path_info self m st :
  path_info self && bool_decide (is_Some (m !! "path_info")) = false ->
  forward self m st
  = ((app self (world st)).2,
     mkSt (after_app (app self (world st)))
          (trace st ++ [EvApp (environ (world st))])).
Proof.
  intros H. unfold forward. rewrite H.
  rewrite <- app_and_cleanup_spec. reflexivity.
Qed.

(** C6.  When the matcher found nothing, and the log line of a debug run
    finds its two keys, the middleware stores the empty dict as the matched
    variables and [None] as the route, invokes the wrapped application once,
    on that environment, and ends with the application's outcome: its
    response as it is, and no exception but one the application raised. *)
Theorem no_match_passthrough lib self st old st1 st2 :
  method_override lib self st = (Return old, st1) ->
  run_matching lib self st1 = (Return (None, None), st2) ->
  let st3 := (restore_method old st2).2 in
  (log_debug self = true ->
   is_Some (environ (world st3) !! "REQUEST_METHOD")
   /\ is_Some (environ (world st3) !! "PATH_INFO")) ->
  let made := URLGenerator lib (mapper self) (world st3) in
  let url := made.2 in
  let e5 := publish_env url ∅ None (environ made.1) in
  let answer := app self (set_environ e5 made.1) in
  e5 !! "wsgiorg.routing_args" = Some (VRoutingArgs url ∅)
  /\ e5 !! "routes.route" = Some VNone
  /\ __call__ lib self st =
       (answer.2,
        mkSt (after_app answer)
             (trace st3 ++ [EvURLGenerator (mapper self) (environ (world st3));
                            EvApp e5]))
  /\ app_environs (trace (__call__ lib self st).2)
     = (app_environs (trace st) ++ [e5])%list.
Proof.
  intros Hmo Hrm st3 Hlog made url e5 answer.
  assert (Hi : inspect_match self None None st3 = (Return ∅, st3)).
  { apply (inspect_match_returns self None None st3 Hlog). left. reflexivity. }
  pose proof (call_after_inspection lib self st old st1
                (None, None) st2 ∅ st3 Hmo Hrm Hi) as Hcall.
  destruct (publish_env_lookup url ∅ None (environ made.1)) as (Hargs & Hroute & _).
  split; [exact Hargs|]. split; [exact Hroute|].
  assert (E : __call__ lib self st =
       (answer.2,
        mkSt (after_app answer)
             (trace st3 ++ [EvURLGenerator (mapper self) (environ (world st3));
                            EvApp e5]))).
  { rewrite Hcall. simpl. rewrite forward_without_path_info.
    - simpl. rewrite <- app_assoc. reflexivity.
    - rewrite lookup_empty. apply andb_false_intro2. apply bool_decide_eq_false.
      intros [x Hx]. discriminate. }
  split; [exact E|]. rewrite E. simpl.
  rewrite app_environs_app. simpl.
  pose proof (no_app_call_method_override lib self st) as H1.
  pose proof (no_app_call_run_matching lib self st1) as H2.
  pose proof (no_app_call_restore_method old st2) as H3.
  rewrite Hmo in H1. rewrite Hrm in H2. unfold no_app_call in *. simpl in *.
  subst st3. congruence.
Qed.

Lemma no_match_passthrough_witness :
  let lib := plain_library ∅ ∅ None in
  let self := middleware hello_app true true in
  let st := start (request "GET" "/nowhere" "") in
  (__call__ lib self st).1 = Return ["hello"]
  /\ environ (world (__call__ lib self st).2) !! "wsgiorg.routing_args"
     = Some (VRoutingArgs 1 ∅)
  /\ environ (world (__call__ lib self st).2) !! "routes.route" = Some VNone
  /\ app_calls (trace (__call__ lib self st).2) = 1.
Proof.
  intros lib self st.
  pose (st1 := (method_override lib self st).2).
  pose (st2 := (run_matching lib self st1).2).
  destruct (no_match_passthrough lib self st VNone st1 st2) as (_ & _ & Hcall & Happ).
  - vm_compute; reflexivity.
  - vm_compute; reflexivity.
  - intros _. split; eexists; vm_compute; reflexivity.
  - unfold app_calls. rewrite Happ, Hcall. vm_compute. repeat split; reflexivity.
Defined.

(** ** Cleaning up after the application *)

(** C7, as the code has it.  For a request that gets to the wrapped
    application (no redirect, and the path rewrite, if any, raised
    nothing): when the application returns a response, the middleware
    returns that response and the route table's environment binding is gone
    afterwards, whether the application left it in place or had removed it
    already. *)
Theorem cleanup_after_normal_return lib self st url m route st5 st6 w' response :
  until_dispatch lib self st = (Return (url, m, route), st5) ->
  from_option redirect false route = false ->
  (if path_info self && bool_decide (is_Some (m !! "path_info"))
   then rewrite_path m else ret tt) st5 = (Return tt, st6) ->
  app self (world st6) = (w', Return response) ->
  __call__ lib self st =
    (Return response,
     mkSt (mkWorld (environ w') false) (trace st6 ++ [EvApp (environ (world st6))])).
Proof.
  intros Hu Hred Hrw Happ.
  rewrite call_until_dispatch, (bind_Return _ _ _ _ _ Hu). simpl.
  assert (E : dispatch lib self url m route st5 = forward self m st5).
  { unfold dispatch. destruct route as [r|]; [|reflexivity].
    simpl in Hred. rewrite Hred. reflexivity. }
  rewrite E. unfold forward. rewrite (bind_Return _ _ _ _ _ Hrw).
  rewrite app_and_cleanup_spec, Happ. reflexivity.
Qed.

Lemma cleanup_after_normal_return_witness :
  let lib := plain_library ∅ ∅ None in
  let st := start (request "GET" "/x" "") in
  (* shared mode: the matcher binds the environment, the cleanup removes it *)
  mapper_environ (world (run_matching lib (middleware hello_app true false) st).2) = true
  /\ (__call__ lib (middleware hello_app true false) st).1 = Return ["hello"]
  /\ mapper_environ (world (__call__ lib (middleware hello_app true false) st).2) = false
  (* direct mode: there is no binding, and the cleanup raises nothing *)
  /\ (__call__ lib (middleware hello_app false false) st).1 = Return ["hello"]
  /\ mapper_environ (world (__call__ lib (middleware hello_app false false) st).2) = false.
Proof.
  intros lib st. split; [reflexivity|].
  assert (H : forall shared,
    (__call__ lib (middleware hello_app shared false) st).1 = Return ["hello"]
    /\ mapper_environ (world (__call__ lib (middleware hello_app shared false) st).2)
       = false).
  { intros shared.
    set (self := middleware hello_app shared false).
    pose (st5 := (until_dispatch lib self st).2).
    rewrite (cleanup_after_normal_return lib self st 1 ∅ None st5 st5
               (world st5) ["hello"]).
    - split; reflexivity.
    - destruct shared; vm_compute; reflexivity.
    - reflexivity.
    - destruct shared; vm_compute; reflexivity.
    - reflexivity. }
  destruct (H true) as [H1 H2]. destruct (H false) as [H3 H4]. auto.
Defined.

(** C7 as stated fails: the application is reached and raises, the
    exception leaves [__call__] at line 156, and the binding the matcher
    made is still there. *)
Lemma cleanup_skipped_after_failure :
  (__call__ (plain_library ∅ ∅ None) (middleware failing_app true false)
            (start (request "GET" "/x" ""))).1 = Raise (AppError 0)
  /\ app_calls (trace (__call__ (plain_library ∅ ∅ None)
                                (middleware failing_app true false)
                                (start (request "GET" "/x" ""))).2) = 1
  /\ mapper_environ (world (__call__ (plain_library ∅ ∅ None)
                                     (middleware failing_app true false)
                                     (start (request "GET" "/x" ""))).2) = true.
Proof. vm_compute. repeat split; reflexivity. Qed.

(** ** The path rewrite *)

Lemma append_empty_r s : s +:+ "" = s.
Proof.
  induction s as [|c s IH]; [reflexivity|].
  change (String c (s +:+ "") = String c s). f_equal. exact IH.
Qed.

Lemma has_LF_append_LF s : has_LF (s +:+ String LF "") = true.
Proof.
  induction s as [|c s IH]; [reflexivity|].
  change (Ascii.eqb c LF || has_LF (s +:+ String LF "") = true).
  rewrite IH. apply orb_true_r.
Qed.

(** On a subject without line feeds the lazy group is what stripping the
    literal from the end leaves. *)
Lemma lazy_group_without_LF lit s :
  has_LF s = false ->
  lazy_group lit s = option_map (fun p => (p, "")) (strip_suffix lit s).
Proof.
  induction s as [|c s IH]; intros Hs.
  - change (lazy_group lit "")
      with (if String.eqb "" lit then Some ("", "")
            else if String.eqb "" (lit +:+ String LF "")
                 then Some ("", String LF "") else None).
    change (strip_suffix lit "") with (if String.eqb "" lit then Some "" else None).
    destruct (String.eqb "" lit); [reflexivity|].
    destruct (String.eqb "" (lit +:+ String LF "")) eqn:E; [|reflexivity].
    apply String.eqb_eq in E.
    pose proof (has_LF_append_LF lit) as H. rewrite <- E in H. discriminate.
  - change (lazy_group lit (String c s))
      with (if String.eqb (String c s) lit then Some ("", "")
            else if String.eqb (String c s) (lit +:+ String LF "")
                 then Some ("", String LF "")
                 else if Ascii.eqb c LF then None
                      else match lazy_group lit s with
                           | Some (p, r) => Some (String c p, r)
                           | None => None
                           end).
    change (strip_suffix lit (String c s))
      with (if String.eqb (String c s) lit then Some ""
            else option_map (String c) (strip_suffix lit s)).
    destruct (String.eqb (String c s) lit); [reflexivity|].
    destruct (String.eqb (String c s) (lit +:+ String LF "")) eqn:E.
    { apply String.eqb_eq in E. rewrite E, has_LF_append_LF in Hs. discriminate. }
    simpl in Hs. apply orb_false_elim in Hs as [Hc Hs]. rewrite Hc, (IH Hs).
    destruct (strip_suffix lit s); reflexivity.
Qed.

(** On an original path without line feeds the code extends the prefix
    by what the specification describes: the path without the remainder
    and its separating slash at the end, the whole path when it does not
    end that way. *)
Lemma re_sub_group1_without_LF newpath oldpath :
  has_LF oldpath = false ->
  re_sub_group1 newpath oldpath
  = default oldpath (strip_suffix ("/" +:+ newpath) oldpath).
Proof.
  intros H. unfold re_sub_group1. rewrite (lazy_group_without_LF _ _ H).
  destruct (strip_suffix _ oldpath); simpl; [apply append_empty_r|reflexivity].
Qed.

Lemma rewrite_path_spec m st oldpath script :
  environ (world st) !! "PATH_INFO" = Some (VStr oldpath) ->
  environ (world st) !! "SCRIPT_NAME" = Some (VStr script) ->
  let newpath := remainder m in
  let path := if startswith "/" newpath then newpath else "/" +:+ newpath in
  exists st',
    rewrite_path m st = (Return tt, st')
    /\ environ (world st') !! "PATH_INFO" = Some (VStr path)
    /\ environ (world st') !! "SCRIPT_NAME"
       = Some (VStr (script +:+ re_sub_group1 newpath oldpath)).
Proof.
  intros Hp Hs newpath path. unfold rewrite_path.
  rewrite (bind_Return _ _ _ _ _ (env_get_Some _ _ _ Hp)).
  fold newpath. unfold bind at 1. simpl.
  unfold bind at 1. subst path.
  destruct (startswith "/" newpath); simpl.
  - unfold bind, env_get. simpl.
    rewrite lookup_insert_ne by discriminate. rewrite Hs. simpl.
    eexists. split; [reflexivity|]. simpl. split.
    + rewrite lookup_insert_ne by discriminate. apply lookup_insert_eq.
    + apply lookup_insert_eq.
  - unfold bind, env_get. simpl.
    rewrite !lookup_insert_ne by discriminate. rewrite Hs. simpl.
    eexists. split; [reflexivity|]. simpl. split.
    + rewrite lookup_insert_ne by discriminate. apply lookup_insert_eq.
    + apply lookup_insert_eq.
Qed.

(** Lines 147-153 on an original path without line feeds: the path
    becomes the remainder behind a slash, and the prefix grows by the
    original path without the remainder and its separating slash. *)
Lemma rewrite_path_without_LF m st oldpath script :
  environ (world st) !! "PATH_INFO" = Some (VStr oldpath) ->
  environ (world st) !! "SCRIPT_NAME" = Some (VStr script) ->
  has_LF oldpath = false ->
  let newpath := remainder m in
  let path := if startswith "/" newpath then newpath else "/" +:+ newpath in
  exists st',
    rewrite_path m st = (Return tt, st')
    /\ environ (world st') !! "PATH_INFO" = Some (VStr path)
    /\ environ (world st') !! "SCRIPT_NAME"
       = Some (VStr (script +:+ default oldpath (strip_suffix ("/" +:+ newpath) oldpath))).
Proof.
  intros Hp Hs HLF newpath path.
  destruct (rewrite_path_spec m st oldpath script Hp Hs) as (st' & H1 & H2 & H3).
  exists st'. split; [exact H1|]. split; [exact H2|].
  rewrite H3. unfold newpath. rewrite (re_sub_group1_without_LF _ _ HLF). reflexivity.
Qed.

(** The example of the specification: [/blog/a/b] with remainder [a/b]. *)
Lemma path_rewrite_blog :
  let lib := plain_library ∅ ∅ (Some (Some {["path_info" := Some "a/b"]}, Some blog_route)) in
  let final := (__call__ lib (middleware hello_app false false)
                         (start (request "GET" "/blog/a/b" ""))).2 in
  environ (world final) !! "PATH_INFO" = Some (VStr "/a/b")
  /\ environ (world final) !! "SCRIPT_NAME" = Some (VStr "/blog").
Proof. vm_compute. split; reflexivity. Qed.

(** C5 fails on an original path with a line feed in the part before the
    remainder: the path ends with [/a/b], the specification's prefix
    extension is what precedes that, and the code appends the whole path,
    because [.] in [(.*?)] does not match a line feed. *)
Theorem path_rewrite_with_line_feed :
  let oldpath := "/bl" +:+ String LF "og/a/b" in
  let lib := plain_library ∅ ∅ (Some (Some {["path_info" := Some "a/b"]}, Some blog_route)) in
  let final := (__call__ lib (middleware hello_app false false)
                         (start (request "GET" oldpath ""))).2 in
  strip_suffix "/a/b" oldpath = Some ("/bl" +:+ String LF "og")
  /\ environ (world final) !! "PATH_INFO" = Some (VStr "/a/b")
  /\ environ (world final) !! "SCRIPT_NAME" = Some (VStr oldpath)
  /\ oldpath <> "/bl" +:+ String LF "og".
Proof. vm_compute. repeat split; try reflexivity. discriminate. Qed.

(** ** What the middleware writes *)

Lemma same_at_method_override lib self k :
  k <> "REQUEST_METHOD" ->
  keeps k (Request_GET lib) -> keeps k (Request_POST lib) ->
  rel (same_at k) (method_override lib self).
Proof.
  intros Hk HG HP. apply rel_method_override.
  - exact (same_at_refl k).
  - exact (same_at_trans k).
  - intros v. apply same_at_set. congruence.
  - refine (same_at_call _ _ _ HG).
  - refine (same_at_call _ _ _ HP).
Qed.

Lemma same_at_run_matching lib self k :
  keeps k (request_config lib (mapper self)) ->
  keeps k (routematch lib (mapper self)) ->
  rel (same_at k) (run_matching lib self).
Proof.
  intros Hc Hr. apply rel_run_matching.
  - exact (same_at_refl k).
  - exact (same_at_trans k).
  - refine (same_at_call _ _ _ Hc).
  - refine (same_at_call _ _ _ Hr).
Qed.

Lemma same_at_inspect_match self k mt route :
  rel (same_at k) (inspect_match self mt route).
Proof.
  apply rel_inspect_match; [exact (same_at_refl k)|exact (same_at_trans k)].
Qed.

Lemma same_at_publish lib self k m route :
  k ∉ published_keys ->
  keeps k (URLGenerator lib (mapper self)) ->
  rel (same_at k) (publish lib self m route).
Proof.
  intros Hk HU. apply rel_publish.
  - exact (same_at_refl k).
  - exact (same_at_trans k).
  - intros k' v Hin. apply same_at_set. intros ->. contradiction.
  - refine (same_at_call _ _ _ HU).
Qed.

(** Lines 55-132 leave the two path keys alone. *)
Lemma same_at_until_dispatch lib self k :
  k ∈ path_keys -> all_keep k lib self ->
  rel (same_at k) (until_dispatch lib self).
Proof.
  intros Hk [HG HP Hc Hr HU _ _].
  assert (Hne : k <> "REQUEST_METHOD").
  { intros ->. unfold path_keys in Hk.
    repeat (apply elem_of_cons in Hk as [Hk|Hk]; [discriminate|]).
    inversion Hk. }
  assert (Hpub : k ∉ published_keys).
  { unfold path_keys, published_keys in *.
    repeat (apply elem_of_cons in Hk as [->|Hk];
            [repeat (apply not_elem_of_cons; split; [discriminate|]);
             apply not_elem_of_nil|]).
    inversion Hk. }
  pose proof (same_at_trans k) as Ht.
  unfold until_dispatch.
  apply (rel_bind _ Ht); [apply same_at_method_override; assumption|intros old].
  apply (rel_bind _ Ht); [apply same_at_run_matching; assumption|intros found].
  apply (rel_bind _ Ht).
  { apply rel_restore_method; [exact (same_at_refl k)|].
    intros v. apply same_at_set. congruence. }
  intros _. apply (rel_bind _ Ht); [apply same_at_inspect_match|intros m].
  apply (rel_bind _ Ht); [apply same_at_publish; assumption|intros url].
  apply rel_ret. exact (same_at_refl k).
Qed.

(** Line 134 onwards leaves them alone as well when lines 146-153 do not
    run. *)
Lemma same_at_dispatch_without_rewrite lib self k url m route st :
  all_keep k lib self ->
  rewrites self m route = false ->
  same_at k st (dispatch lib self url m route st).2.
Proof.
  intros [_ _ _ _ _ Hu Ha] Hrw.
  pose proof (same_at_refl k) as Hrefl. pose proof (same_at_trans k) as Ht.
  assert (Hfwd : path_info self && bool_decide (is_Some (m !! "path_info")) = false ->
                 same_at k st (forward self m st).2).
  { intros Hc. unfold forward. rewrite Hc.
    refine (rel_bind _ Ht _ _ _ _ st); [apply rel_ret, Hrefl|intros _].
    apply rel_app_and_cleanup; try assumption.
    - apply same_at_app, Ha.
    - apply same_at_del. }
  unfold rewrites in Hrw. unfold dispatch. destruct route as [r|]; simpl in Hrw.
  - destruct (redirect r); simpl in Hrw.
    + refine (rel_redirect_response _ Hrefl Ht lib _ _ url m r st).
      * intros u name kw. refine (same_at_call _ _ _ (Hu u name kw)).
      * apply same_at_start_response.
    + apply Hfwd. rewrite andb_true_r in Hrw. exact Hrw.
  - apply Hfwd. rewrite andb_true_r in Hrw. exact Hrw.
Qed.

Lemma bind_inv {A B} (m : M A) (k : A -> M B) st o st' :
  bind m k st = (o, st') ->
  (exists a s1, m st = (Return a, s1) /\ k a s1 = (o, st'))
  \/ (exists e, m st = (Raise e, st') /\ o = Raise e).
Proof.
  unfold bind. destruct (m st) as [[a|e] s1]; [eauto|].
  intros [= <- <-]. eauto.
Qed.

Lemma unchanged_inv {A} (m : M A) st o s :
  rel unchanged m -> m st = (o, s) -> s = st.
Proof. intros H E. specialize (H st). rewrite E in H. exact H. Qed.

Lemma unchanged_trans a b c : unchanged a b -> unchanged b c -> unchanged a c.
Proof. unfold unchanged. congruence. Qed.

Lemma unchanged_query_string :
  rel unchanged (try_except (env_get "QUERY_STRING") is_KeyError (ret (VStr ""))).
Proof.
  apply rel_try_except; [exact unchanged_trans| |];
    first [apply rel_env_get|apply rel_ret]; reflexivity.
Qed.

Lemma unchanged_contains_method v : rel unchanged (contains_method v).
Proof. apply rel_contains_method. reflexivity. Qed.

Lemma unchanged_env_get k : rel unchanged (env_get k).
Proof. apply rel_env_get. reflexivity. Qed.

Lemma unchanged_is_form_post : rel unchanged is_form_post.
Proof. apply rel_is_form_post; [reflexivity|exact unchanged_trans]. Qed.

Lemma call_never_raises {A} ev (f : World -> World * A) st e st' :
  call ev f st <> (Raise e, st').
Proof. unfold call. destruct (f (world st)). discriminate. Qed.

Lemma override_with_method lib self v st0 st o st1 :
  environ (world st0) !! "REQUEST_METHOD" = environ (world st) !! "REQUEST_METHOD" ->
  override_with lib self v st0 = (o, st1) ->
  (same_at "REQUEST_METHOD" st st1 /\ (o = Return VNone \/ exists e, o = Raise e))
  \/ (exists orig, environ (world st) !! "REQUEST_METHOD" = Some orig /\ o = Return orig).
Proof.
  intros E H. destruct (environ (world st0) !! "REQUEST_METHOD") as [orig|] eqn:E0.
  - rewrite (override_with_spec _ _ _ _ _ E0) in H. injection H as <- <-. eauto.
  - unfold override_with in H. rewrite (bind_Raise _ _ _ _ _ (env_get_None _ _ E0)) in H.
    injection H as <- <-. left. split; [unfold same_at; congruence|eauto].
Qed.

(** What [method_override] does to the method: it leaves it and records
    nothing, or it records the method that was there. *)
Lemma method_override_method lib self st o st1 :
  keeps "REQUEST_METHOD" (Request_GET lib) ->
  keeps "REQUEST_METHOD" (Request_POST lib) ->
  method_override lib self st = (o, st1) ->
  (same_at "REQUEST_METHOD" st st1 /\ (o = Return VNone \/ exists e, o = Raise e))
  \/ (exists orig, environ (world st) !! "REQUEST_METHOD" = Some orig /\ o = Return orig).
Proof.
  intros HG HP H. unfold method_override in H.
  destruct (use_method_override self);
    [|injection H as <- <-; left; split; [reflexivity|auto]].
  apply bind_inv in H as [(qv & s1 & H1 & H)|(e & H1 & ->)];
    apply (unchanged_inv _ _ _ _ unchanged_query_string) in H1 as ->;
    [|left; split; [reflexivity|eauto]].
  apply bind_inv in H as [(found & s1 & H1 & H)|(e & H1 & ->)];
    apply (unchanged_inv _ _ _ _ (unchanged_contains_method _)) in H1 as ->;
    [|left; split; [reflexivity|eauto]].
  destruct found.
  - unfold query_branch in H.
    apply bind_inv in H as [(GET & s1 & Hc & H)|(e & Hc & ->)];
      [|destruct (call_never_raises _ _ _ _ _ Hc)].
    apply call_inv in Hc as [-> ->].
    destruct (_ !! "_method") as [v|].
    + apply (override_with_method _ _ _ _ st) in H; [exact H|apply HG].
    + injection H as <- <-. left. split; [apply HG|auto].
  - unfold form_branch in H.
    apply bind_inv in H as [(method & s1 & H1 & H)|(e & H1 & ->)];
      apply (unchanged_inv _ _ _ _ (unchanged_env_get _)) in H1 as ->;
      [|left; split; [reflexivity|eauto]].
    destruct (is_str method "POST");
      [|injection H as <- <-; left; split; [reflexivity|auto]].
    apply bind_inv in H as [(form & s1 & H1 & H)|(e & H1 & ->)];
      apply (unchanged_inv _ _ _ _ unchanged_is_form_post) in H1 as ->;
      [|left; split; [reflexivity|eauto]].
    destruct form; [|injection H as <- <-; left; split; [reflexivity|auto]].
    apply bind_inv in H as [(POST & s1 & Hc & H)|(e & Hc & ->)];
      [|destruct (call_never_raises _ _ _ _ _ Hc)].
    apply call_inv in Hc as [-> ->].
    destruct (_ !! "_method") as [v|].
    + apply (override_with_method _ _ _ _ st) in H; [exact H|apply HP].
    + injection H as <- <-. left. split; [apply HP|auto].
Qed.

Lemma same_at_call_other_keys lib self k :
  k ∉ ("REQUEST_METHOD" :: path_keys ++ published_keys)%list ->
  all_keep k lib self ->
  rel (same_at k) (__call__ lib self).
Proof.
  intros Hk [HG HP Hc Hr HU Hu Ha].
  apply not_elem_of_cons in Hk as [Hm Hk].
  apply not_elem_of_app in Hk as [Hpath Hpub].
  apply rel_call.
  - exact (same_at_refl k).
  - exact (same_at_trans k).
  - intros v. apply same_at_set. congruence.
  - intros k' v Hin. apply same_at_set. intros ->. contradiction.
  - intros k' v Hin. apply same_at_set. intros ->. contradiction.
  - refine (same_at_call _ _ _ HG).
  - refine (same_at_call _ _ _ HP).
  - refine (same_at_call _ _ _ Hc).
  - refine (same_at_call _ _ _ Hr).
  - refine (same_at_call _ _ _ HU).
  - intros u name kw. refine (same_at_call _ _ _ (Hu u name kw)).
  - apply same_at_start_response.
  - apply same_at_app, Ha.
  - apply same_at_del.
Qed.

(** C10, as the code has it.  With collaborators that keep the key in
    question, the request parsers and the URL generator as well as the
    matcher and the wrapped application:
    - a key other than the method, the two path keys and the three
      published keys reads the same after the middleware as before, with
      any outcome;
    - so does each of the two path keys when lines 146-153 do not run for
      what the matcher found;
    - when the method of the request is not a false value (WSGI has it a
      non-empty string), the method is what it was whenever the wrapped
      application is invoked, and when the middleware is done: an override
      lasts from [method_override] to the restoration only. *)
Theorem middleware_frame lib self st :
  (forall k,
     k ∉ ("REQUEST_METHOD" :: path_keys ++ published_keys)%list ->
     all_keep k lib self ->
     same_at k st (__call__ lib self st).2)
  /\ (forall k,
        k ∈ path_keys ->
        all_keep k lib self ->
        (forall x st5, until_dispatch lib self st = (Return x, st5) ->
                       rewrites self x.1.2 x.2 = false) ->
        same_at k st (__call__ lib self st).2)
  /\ (all_keep "REQUEST_METHOD" lib self ->
      (forall v, environ (world st) !! "REQUEST_METHOD" = Some v -> truthy v = true) ->
      app_environs (trace st) = [] ->
      app_saw "REQUEST_METHOD" (environ (world st) !! "REQUEST_METHOD")
              (__call__ lib self st).2).
Proof.
  split; [|split].
  - intros k Hk Hkeep. apply same_at_call_other_keys; assumption.
  - intros k Hk Hkeep Hrw. rewrite call_until_dispatch. unfold bind.
    pose proof (same_at_until_dispatch lib self k Hk Hkeep st) as Hpre.
    destruct (until_dispatch lib self st) as [[x|e] st5] eqn:E; simpl in *;
      [|exact Hpre].
    eapply same_at_trans; [exact Hpre|].
    apply same_at_dispatch_without_rewrite; [exact Hkeep|].
    apply (Hrw x st5 eq_refl).
  - intros Hkeep Htruthy Htrace.
    destruct Hkeep as [HG HP Hc Hr HU Hu Ha].
    pose proof (no_app_call_method_override lib self st) as N1.
    unfold __call__, bind at 1.
    destruct (method_override lib self st) as [[old|e] st1] eqn:Hmo; simpl in N1.
    + destruct (run_matching_returns lib self st1) as (found & w2 & Hrm).
      pose proof (no_app_call_run_matching lib self st1) as N2.
      pose proof (same_at_run_matching lib self _ Hc Hr st1) as S2.
      rewrite (bind_Return _ _ _ _ _ Hrm). rewrite Hrm in N2, S2. simpl in N2, S2.
      set (st2 := mkSt w2 _) in *.
      pose proof (no_app_call_restore_method old st2) as N3.
      rewrite (bind_Return _ _ _ _ _ (restore_method_returns old st2)).
      apply app_saw_after_restore; try assumption.
      { unfold path_keys, published_keys. simpl.
        repeat (apply not_elem_of_cons; split; [discriminate|]).
        apply not_elem_of_nil. }
      split.
      * destruct (method_override_method _ _ _ _ _ HG HP Hmo)
          as [[S1 [[= ->]|[e He]]]|(orig & Eorig & [= ->])]; [| discriminate |].
        -- change (restore_method VNone st2).2 with st2.
           exact (eq_trans S2 S1).
        -- unfold restore_method. rewrite (Htruthy _ Eorig), Eorig.
           apply env_set_lookup.
      * unfold no_app_call in *. rewrite N3, N2, N1, Htrace. constructor.
    + unfold app_saw. simpl. split.
      * destruct (method_override_method _ _ _ _ _ HG HP Hmo)
          as [[S1 _]|(orig & _ & [=])]. exact S1.
      * unfold no_app_call in N1. rewrite N1, Htrace. constructor.
Qed.

Lemma middleware_frame_witness :
  let lib := plain_library {["_method" := "put"]} ∅
               (Some (Some {["path_info" := Some "a/b"]}, Some blog_route)) in
  let self := middleware hello_app false false in
  let e := <["HTTP_HOST" := VStr "example.org"]>
             (request "GET" "/blog/a/b" "_method=put") in
  let final := (__call__ lib self (start e)).2 in
  environ (world final) !! "HTTP_HOST" = Some (VStr "example.org")
  /\ environ (world final) !! "REQUEST_METHOD" = Some (VStr "GET")
  /\ app_environs (trace final) !! 0 ≫= (.!! "REQUEST_METHOD") = Some (VStr "GET")
  /\ environ (world (__call__ (plain_library ∅ ∅ None) self (start e)).2) !! "PATH_INFO"
     = Some (VStr "/blog/a/b").
Proof.
  intros lib self e final.
  assert (Hkeep : forall k found get, all_keep k (plain_library get ∅ found) self).
  { intros k found get. split; intros; intros w; reflexivity. }
  destruct (middleware_frame lib self (start e)) as (H1 & _ & H3).
  destruct (middleware_frame (plain_library ∅ ∅ None) self (start e)) as (_ & H2 & _).
  split; [|split; [|split]].
  - subst final. rewrite (H1 "HTTP_HOST"); [reflexivity| |apply Hkeep].
    unfold path_keys, published_keys. simpl.
    repeat (apply not_elem_of_cons; split; [discriminate|]). apply not_elem_of_nil.
  - destruct H3 as [H _]; [apply Hkeep| |reflexivity|exact H].
    intros v Hv. vm_compute in Hv. injection Hv as <-. reflexivity.
  - vm_compute. reflexivity.
  - rewrite (H2 "PATH_INFO"); [reflexivity|unfold path_keys; repeat constructor
                              |apply Hkeep|].
    intros x st5 Hx. vm_compute in Hx. injection Hx as <- _. reflexivity.
Defined.

(** C10 as stated fails.  It sets apart the matcher and the wrapped
    application only, and here both keep every key; still, after a call that
    ends normally and without a path rewrite, the environment has a key it
    did not have, [webob.adhoc_attrs], written when line 72 assigns to the
    request, and the [SCRIPT_NAME] it lacked, written by the constructor
    called in line 128. *)
Lemma parser_and_generator_write :
  let lib := writing_library {["_method" := "put"]} ∅ None in
  let self := middleware hello_app false false in
  let e := delete "SCRIPT_NAME" (request "GET" "/x" "_method=put") in
  let final := (__call__ lib self (start e)).2 in
  (forall k, keeps k (request_config lib (mapper self))
             /\ keeps k (routematch lib (mapper self))
             /\ keeps k (app self))
  /\ (__call__ lib self (start e)).1 = Return ["hello"]
  /\ ("webob.adhoc_attrs" ∉ ("REQUEST_METHOD" :: path_keys ++ published_keys)%list)
  /\ e !! "webob.adhoc_attrs" = None
  /\ environ (world final) !! "webob.adhoc_attrs"
     = Some (VDict {["errors" := "ignore"]})
  /\ ~ same_at "webob.adhoc_attrs" (start e) final
  /\ (forall x st5, until_dispatch lib self (start e) = (Return x, st5) ->
                    rewrites self x.1.2 x.2 = false)
  /\ e !! "SCRIPT_NAME" = None
  /\ environ (world final) !! "SCRIPT_NAME" = Some (VStr "")
  /\ ~ same_at "SCRIPT_NAME" (start e) final.
Proof.
  intros lib self e final.
  split; [intros k; repeat split; intros w; reflexivity|].
  split; [vm_compute; reflexivity|].
  split.
  { unfold path_keys, published_keys. simpl.
    repeat (apply not_elem_of_cons; split; [discriminate|]). apply not_elem_of_nil. }
  split; [vm_compute; reflexivity|].
  split; [vm_compute; reflexivity|].
  split; [unfold same_at; vm_compute; discriminate|].
  split.
  { intros x st5 Hx. vm_compute in Hx. injection Hx as <- _. reflexivity. }
  split; [vm_compute; reflexivity|].
  split; [vm_compute; reflexivity|].
  unfold same_at; vm_compute; discriminate.
Qed.

(** * Further properties of the code *)

(** ** More on strings *)

Lemma append_cons c s t : String c s +:+ t = String c (s +:+ t).
Proof. reflexivity. Qed.

Lemma append_assoc_string s t u : (s +:+ t) +:+ u = s +:+ (t +:+ u).
Proof.
  induction s as [|c s IH]; [reflexivity|].
  rewrite !append_cons. f_equal. exact IH.
Qed.

Lemma length_append_string s t :
  String.length (s +:+ t) = String.length s + String.length t.
Proof.
  induction s as [|c s IH]; [reflexivity|].
  rewrite append_cons. simpl. f_equal. exact IH.
Qed.

Lemma eqb_length_ne s t :
  String.length s <> String.length t -> String.eqb s t = false.
Proof. intros H. apply String.eqb_neq. intros ->. contradiction. Qed.

Lemma lower_upper_char c : lower_char (ascii_upper_char c) = lower_char c.
Proof. destruct c as [[] [] [] [] [] [] [] []]; reflexivity. Qed.

Lemma lower_upper s : lower (ascii_upper s) = lower s.
Proof.
  unfold lower, ascii_upper. induction s as [|c s IH]; [reflexivity|].
  simpl. rewrite lower_upper_char. f_equal. exact IH.
Qed.

Lemma split_head_append s t :
  split_head ";" (split_head ";" s +:+ String ";" t) = split_head ";" s.
Proof.
  induction s as [|c s IH]; [reflexivity|].
  change (split_head ";" (String c s))
    with (if Ascii.eqb c ";" then EmptyString else String c (split_head ";" s)).
  destruct (Ascii.eqb c ";") eqn:E; [reflexivity|].
  rewrite append_cons.
  change (split_head ";" (String c (split_head ";" s +:+ String ";" t)))
    with (if Ascii.eqb c ";" then EmptyString
          else String c (split_head ";" (split_head ";" s +:+ String ";" t))).
  rewrite E, IH. reflexivity.
Qed.

Lemma strip_suffix_Some suffix s p :
  strip_suffix suffix s = Some p -> s = p +:+ suffix.
Proof.
  revert p. induction s as [|c s IH]; intros p.
  - change (strip_suffix suffix "")
      with (if String.eqb "" suffix then Some "" else None).
    destruct (String.eqb_spec "" suffix) as [<-|_]; [|discriminate].
    intros [= <-]. reflexivity.
  - change (strip_suffix suffix (String c s))
      with (if String.eqb (String c s) suffix then Some ""
            else option_map (String c) (strip_suffix suffix s)).
    destruct (String.eqb_spec (String c s) suffix) as [<-|_].
    + intros [= <-]. reflexivity.
    + destruct (strip_suffix suffix s) as [q|]; [|discriminate].
      intros [= <-]. rewrite append_cons, <- (IH q eq_refl). reflexivity.
Qed.

Lemma startswith_slash_path newpath : startswith "/" (slash_path newpath) = true.
Proof.
  unfold slash_path. destruct (startswith "/" newpath) eqn:E; [exact E|].
  unfold startswith.
  change (String.prefix "/" ("/" +:+ newpath))
    with (if ascii_dec "/" "/" then String.prefix "" newpath else false).
  destruct (ascii_dec "/" "/"); [apply prefix_empty|contradiction].
Qed.

(** ** [is_form_post] *)

(** X1.  [is_form_post] reads [CONTENT_TYPE] and changes nothing.  On a
    missing content type it answers [False]; on a string it answers [True]
    exactly when the lower-cased text before the first [;] is one of the two
    form types; on [None] it raises [AttributeError] (line 168), on [bytes]
    [TypeError] (line 169). *)
Theorem is_form_post_cases st :
  (environ (world st) !! "CONTENT_TYPE" = None ->
   is_form_post st = (Return false, st))
  /\ (forall ct, environ (world st) !! "CONTENT_TYPE" = Some (VStr ct) ->
        is_form_post st = (Return (form_content_type ct), st)
        /\ (form_content_type ct = true <->
            lower (discard_parameters ct) = "application/x-www-form-urlencoded"
            \/ lower (discard_parameters ct) = "multipart/form-data"))
  /\ (environ (world st) !! "CONTENT_TYPE" = Some VNone ->
      is_form_post st = (Raise AttributeError, st))
  /\ (forall b, environ (world st) !! "CONTENT_TYPE" = Some (VBytes b) ->
        is_form_post st = (Raise TypeError, st)).
Proof.
  split; [|split; [|split]].
  - intros H. unfold is_form_post, bind, env_lookup. rewrite H. reflexivity.
  - intros ct H. split; [apply is_form_post_spec, H|].
    rewrite form_content_type_split. rewrite orb_true_iff, !String.eqb_eq.
    reflexivity.
  - intros H. unfold is_form_post, bind, env_lookup. rewrite H. reflexivity.
  - intros b H. unfold is_form_post, bind, env_lookup. rewrite H. reflexivity.
Qed.

Lemma is_form_post_cases_witness :
  is_form_post (start (request "GET" "/" "")) = (Return false, start (request "GET" "/" ""))
  /\ is_form_post (start (form_request "/" "Multipart/Form-Data; boundary=x"))
     = (Return true, start (form_request "/" "Multipart/Form-Data; boundary=x"))
  /\ is_form_post (start (<["CONTENT_TYPE" := VNone]> (request "POST" "/" "")))
     = (Raise AttributeError, start (<["CONTENT_TYPE" := VNone]> (request "POST" "/" "")))
  /\ is_form_post (start (<["CONTENT_TYPE" := VBytes "text/plain"]> (request "POST" "/" "")))
     = (Raise TypeError,
        start (<["CONTENT_TYPE" := VBytes "text/plain"]> (request "POST" "/" ""))).
Proof.
  split; [|split; [|split]].
  - apply (is_form_post_cases (start (request "GET" "/" ""))). reflexivity.
  - destruct (is_form_post_cases
                (start (form_request "/" "Multipart/Form-Data; boundary=x")))
      as (_ & H & _).
    destruct (H "Multipart/Form-Data; boundary=x") as [E _];
      [vm_compute; reflexivity|rewrite E; reflexivity].
  - destruct (is_form_post_cases
                (start (<["CONTENT_TYPE" := VNone]> (request "POST" "/" ""))))
      as (_ & _ & H & _).
    apply H. vm_compute; reflexivity.
  - destruct (is_form_post_cases
                (start (<["CONTENT_TYPE" := VBytes "text/plain"]> (request "POST" "/" ""))))
      as (_ & _ & _ & H).
    apply (H "text/plain"). vm_compute; reflexivity.
Defined.

(** X2.  Neither the parameters after the first [;] nor the case of the
    ASCII letters matter to [is_form_post]: replacing the parameters, or
    upper-casing the ASCII letters of the content type, gives the same
    answer. *)
Theorem form_content_type_ignores ct params :
  form_content_type (discard_parameters ct +:+ String ";" params)
  = form_content_type ct
  /\ form_content_type (ascii_upper ct) = form_content_type ct.
Proof.
  rewrite !form_content_type_split. unfold discard_parameters. split.
  - rewrite split_head_append. reflexivity.
  - rewrite <- !split_head_lower, lower_upper. reflexivity.
Qed.

(** ** Which collaborators are called *)

Section Quiet.
Variable P : Event -> bool.

Lemma events_app t1 t2 : events P (t1 ++ t2) = (events P t1 ++ events P t2)%list.
Proof. apply List.filter_app. Qed.

Lemma quiet_refl st : quiet P st st.
Proof. reflexivity. Qed.

Lemma quiet_trans a b c : quiet P a b -> quiet P b c -> quiet P a c.
Proof. unfold quiet. congruence. Qed.

Lemma quiet_set k v : rel (quiet P) (env_set k v).
Proof. intros st. reflexivity. Qed.

Lemma quiet_call {A} ev (f : World -> World * A) :
  (forall e, P (ev e) = false) -> rel (quiet P) (call ev f).
Proof.
  intros Hev st. unfold quiet, call. destruct (f (world st)) as [w' a].
  simpl. rewrite events_app. simpl. rewrite Hev. apply app_nil_r.
Qed.

Lemma quiet_start_response s h :
  P (EvStartResponse s h) = false -> rel (quiet P) (start_response s h).
Proof.
  intros Hev st. unfold quiet. simpl. rewrite events_app. simpl.
  rewrite Hev. apply app_nil_r.
Qed.

Lemma quiet_app self : (forall e, P (EvApp e) = false) -> rel (quiet P) (call_app self).
Proof.
  intros Hev st. unfold quiet, call_app. destruct (app self (world st)) as [w' a].
  simpl. rewrite events_app. simpl. rewrite Hev. apply app_nil_r.
Qed.

Lemma quiet_del : rel (quiet P) del_mapper_environ.
Proof.
  intros st. unfold del_mapper_environ.
  destruct (mapper_environ (world st)); reflexivity.
Qed.

Lemma quiet_run_matching lib self :
  (forall b m e, P (EvMatch b m e) = false) -> rel (quiet P) (run_matching lib self).
Proof.
  intros HP. apply rel_run_matching.
  - exact quiet_refl.
  - exact quiet_trans.
  - refine (quiet_call _ _ _). intros e. apply HP.
  - refine (quiet_call _ _ _). intros e. apply HP.
Qed.

Lemma quiet_restore_method old : rel (quiet P) (restore_method old).
Proof. apply rel_restore_method; [exact quiet_refl|exact (quiet_set _)]. Qed.

Lemma quiet_inspect_match self mt route : rel (quiet P) (inspect_match self mt route).
Proof. apply rel_inspect_match; [exact quiet_refl|exact quiet_trans]. Qed.

Lemma quiet_publish lib self m route :
  (forall mp e, P (EvURLGenerator mp e) = false) ->
  rel (quiet P) (publish lib self m route).
Proof.
  intros HP. apply rel_publish.
  - exact quiet_refl.
  - exact quiet_trans.
  - intros k v _. apply quiet_set.
  - refine (quiet_call _ _ _). intros e. apply HP.
Qed.

Lemma quiet_forward self m :
  (forall e, P (EvApp e) = false) -> rel (quiet P) (forward self m).
Proof.
  intros HP. apply rel_forward.
  - exact quiet_refl.
  - exact quiet_trans.
  - intros k v _. apply quiet_set.
  - apply quiet_app, HP.
  - apply quiet_del.
Qed.
End Quiet.

Lemma quiet_parser_after_restore lib self mt route :
  rel (quiet parser_event) (after_restore lib self mt route).
Proof.
  apply rel_after_restore.
  - exact (quiet_refl _).
  - exact (quiet_trans _).
  - intros k v _. apply quiet_set.
  - intros k v _. apply quiet_set.
  - refine (quiet_call _ _ _ _). reflexivity.
  - intros u name kw. refine (quiet_call _ _ _ _). reflexivity.
  - intros s h. apply quiet_start_response. reflexivity.
  - apply quiet_app. reflexivity.
  - apply quiet_del.
Qed.

(** When [method_override] returns without a call to a parser, the call
    as a whole makes none. *)
Lemma quiet_parser_call lib self st old :
  method_override lib self st = (Return old, st) ->
  quiet parser_event st (__call__ lib self st).2.
Proof.
  intros Hmo. unfold __call__. rewrite (bind_Return _ _ _ _ _ Hmo).
  assert (H : rel (quiet parser_event)
                (found <- run_matching lib self ;;
                 restore_method old ;;;
                 after_restore lib self found.1 found.2)).
  { apply (rel_bind _ (quiet_trans _)); [apply quiet_run_matching; reflexivity|].
    intros found. apply (rel_bind _ (quiet_trans _)); [apply quiet_restore_method|].
    intros _. apply quiet_parser_after_restore. }
  apply H.
Qed.

(** X3.  With the method override switched off no [Request] is built and
    no parameter is parsed, and the middleware never assigns the method:
    with collaborators that keep it, the method, whatever value it has, is
    what the wrapped application sees and what is there in the end. *)
Theorem override_disabled lib self st :
  use_method_override self = false ->
  quiet parser_event st (__call__ lib self st).2
  /\ (all_keep "REQUEST_METHOD" lib self ->
      app_environs (trace st) = [] ->
      app_saw "REQUEST_METHOD" (environ (world st) !! "REQUEST_METHOD")
              (__call__ lib self st).2).
Proof.
  intros Hoff.
  assert (Hmo : method_override lib self st = (Return VNone, st)).
  { unfold method_override. rewrite Hoff. reflexivity. }
  split; [apply (quiet_parser_call _ _ _ _ Hmo)|].
  intros [_ _ Hc Hr HU Hu Ha] Htrace.
  unfold __call__. rewrite (bind_Return _ _ _ _ _ Hmo).
  destruct (run_matching_returns lib self st) as (found & w2 & Hrm).
  pose proof (no_app_call_run_matching lib self st) as N2.
  pose proof (same_at_run_matching lib self _ Hc Hr st) as S2.
  rewrite (bind_Return _ _ _ _ _ Hrm). rewrite Hrm in N2, S2. simpl in N2, S2.
  change ((restore_method VNone ;;; after_restore lib self found.1 found.2)
            (mkSt w2 (trace st ++ [EvMatch (singleton self) (mapper self)
                                           (environ (world st))])))
    with (after_restore lib self found.1 found.2
            (mkSt w2 (trace st ++ [EvMatch (singleton self) (mapper self)
                                           (environ (world st))]))).
  apply app_saw_after_restore; try assumption.
  { unfold path_keys, published_keys. simpl.
    repeat (apply not_elem_of_cons; split; [discriminate|]). apply not_elem_of_nil. }
  split; [exact S2|]. unfold no_app_call in N2. simpl in *.
  rewrite N2, Htrace. constructor.
Qed.

Lemma override_disabled_witness :
  let lib := plain_library {["_method" := "put"]} {["_method" := "delete"]} None in
  let self := __init__ hello_app 0 (Some false) None (Some false) 20 in
  let final := (__call__ lib self (start (request "" "/x" "_method=put"))).2 in
  events parser_event (trace final) = []
  /\ app_saw "REQUEST_METHOD" (Some (VStr "")) final.
Proof.
  intros lib self final.
  destruct (override_disabled lib self (start (request "" "/x" "_method=put")) eq_refl)
    as [Hq Hm].
  split; [exact Hq|].
  apply Hm; [split; intros; intros w; reflexivity|reflexivity].
Defined.

(** X4.  A request whose raw query string has no [_method] (or that has
    no query string) and whose method is not [POST] goes through lines 55-90
    untouched: nothing is recorded, nothing is written, and no [Request] is
    built in the whole call. *)
Theorem no_parsing_without_method_parameter lib self st method :
  (forall qs, environ (world st) !! "QUERY_STRING" = Some qs ->
              exists s, qs = VStr s /\ str_in "_method" s = false) ->
  environ (world st) !! "REQUEST_METHOD" = Some method ->
  is_str method "POST" = false ->
  method_override lib self st = (Return VNone, st)
  /\ quiet parser_event st (__call__ lib self st).2.
Proof.
  intros Hqs Hm Hne.
  assert (Hmo : method_override lib self st = (Return VNone, st)).
  { unfold method_override. destruct (use_method_override self); [|reflexivity].
    unfold bind at 1 2, try_except, env_get.
    assert (E : form_branch lib self st = (Return VNone, st)).
    { unfold form_branch. rewrite (bind_Return _ _ _ _ _ (env_get_Some _ _ _ Hm)).
      rewrite Hne. reflexivity. }
    destruct (environ (world st) !! "QUERY_STRING") as [qs|] eqn:Eqs; [|exact E].
    destruct (Hqs qs eq_refl) as (s & -> & Hs). simpl. rewrite Hs. exact E. }
  split; [exact Hmo|apply (quiet_parser_call _ _ _ _ Hmo)].
Qed.

Lemma no_parsing_without_method_parameter_witness :
  let lib := plain_library {["_method" := "put"]} {["_method" := "delete"]} None in
  let self := middleware hello_app false false in
  let e := <["CONTENT_TYPE" := VStr "application/x-www-form-urlencoded"]>
             (request "PUT" "/x" "sort=asc") in
  method_override lib self (start e) = (Return VNone, start e)
  /\ events parser_event (trace (__call__ lib self (start e)).2) = [].
Proof.
  intros lib self e.
  destruct (no_parsing_without_method_parameter lib self (start e) (VStr "PUT"))
    as [H1 H2].
  - intros qs Hqs. exists "sort=asc". vm_compute in Hqs. split; [congruence|reflexivity].
  - vm_compute; reflexivity.
  - reflexivity.
  - split; [exact H1|exact H2].
Defined.

(** X5.  With the method override on, a request without [REQUEST_METHOD]
    ends in [KeyError] before the matcher is called: at line 80, with the
    state untouched, when the raw query string has no [_method]; at line 74,
    after the query was parsed, when the query has a [_method] parameter and
    the parser did not add the key. *)
Theorem missing_method_raises lib self st :
  use_method_override self = true ->
  environ (world st) !! "REQUEST_METHOD" = None ->
  ((forall qs, environ (world st) !! "QUERY_STRING" = Some qs ->
               exists s, qs = VStr s /\ str_in "_method" s = false) ->
   __call__ lib self st = (Raise (KeyError "REQUEST_METHOD"), st))
  /\ (forall qs v,
        environ (world st) !! "QUERY_STRING" = Some (VStr qs) ->
        str_in "_method" qs = true ->
        (Request_GET lib (world st)).2 !! "_method" = Some v ->
        keeps "REQUEST_METHOD" (Request_GET lib) ->
        __call__ lib self st =
          (Raise (KeyError "REQUEST_METHOD"),
           mkSt (Request_GET lib (world st)).1 (trace st ++ [EvRequestGET]))).
Proof.
  intros Huse Hm. split.
  - intros Hqs. unfold __call__. apply bind_Raise.
    unfold method_override. rewrite Huse.
    unfold bind at 1 2, try_except, env_get.
    assert (E : form_branch lib self st = (Raise (KeyError "REQUEST_METHOD"), st)).
    { unfold form_branch. apply bind_Raise, env_get_None, Hm. }
    destruct (environ (world st) !! "QUERY_STRING") as [qs|] eqn:Eqs; [|exact E].
    destruct (Hqs qs eq_refl) as (s & -> & Hs). simpl. rewrite Hs. exact E.
  - intros qs v Hqs Hin Hv Hkeep. unfold __call__. apply bind_Raise.
    unfold method_override. rewrite Huse.
    unfold bind at 1 2, try_except, env_get. rewrite Hqs. simpl. rewrite Hin.
    unfold query_branch, bind at 1, call. specialize (Hkeep (world st)).
    destruct (Request_GET lib (world st)) as [w GET]. simpl in *.
    rewrite Hv. unfold override_with. apply bind_Raise, env_get_None.
    simpl. congruence.
Qed.

Lemma missing_method_raises_witness :
  let lib := plain_library {["_method" := "put"]} ∅ None in
  let self := middleware hello_app true false in
  let e := delete "REQUEST_METHOD" (request "GET" "/x" "") in
  let e' := delete "REQUEST_METHOD" (request "GET" "/x" "_method=put") in
  __call__ lib self (start e) = (Raise (KeyError "REQUEST_METHOD"), start e)
  /\ __call__ lib self (start e')
     = (Raise (KeyError "REQUEST_METHOD"), mkSt (mkWorld e' false) [EvRequestGET]).
Proof.
  intros lib self e e'. split.
  - destruct (missing_method_raises lib self (start e)) as [H _];
      [reflexivity|vm_compute; reflexivity|].
    apply H. intros qs Hqs. exists "". vm_compute in Hqs.
    split; [congruence|reflexivity].
  - destruct (missing_method_raises lib self (start e')) as [_ H];
      [reflexivity|vm_compute; reflexivity|].
    apply (H "_method=put" "put");
      [vm_compute; reflexivity|reflexivity|vm_compute; reflexivity
      |intros w; reflexivity].
Defined.

(** ** How often the collaborators are called *)

Lemma no_app_call_until_dispatch lib self : rel no_app_call (until_dispatch lib self).
Proof.
  assert (Hc : forall A ev (f : World -> World * A),
            not_app ev -> rel no_app_call (call ev f)).
  { intros A ev f H. exact (no_app_call_call ev f H). }
  unfold until_dispatch.
  apply (rel_bind _ no_app_call_trans); [apply no_app_call_method_override|intros old].
  apply (rel_bind _ no_app_call_trans); [apply no_app_call_run_matching|intros found].
  apply (rel_bind _ no_app_call_trans); [apply no_app_call_restore_method|intros _].
  apply (rel_bind _ no_app_call_trans).
  { apply rel_inspect_match; [exact no_app_call_refl|exact no_app_call_trans]. }
  intros m. apply (rel_bind _ no_app_call_trans).
  { apply rel_publish; [exact no_app_call_refl|exact no_app_call_trans| |].
    - intros k v _. apply no_app_call_set.
    - apply Hc. intros e. exact I. }
  intros url. apply rel_ret. exact no_app_call_refl.
Qed.

Lemma no_app_call_redirect_response lib url m r :
  rel no_app_call (redirect_response lib url m r).
Proof.
  apply rel_redirect_response; [exact no_app_call_refl|exact no_app_call_trans| |].
  - intros u name kw. refine (no_app_call_call _ _ _). intros e. exact I.
  - apply no_app_call_start_response.
Qed.

Lemma no_app_call_rewrite_path m : rel no_app_call (rewrite_path m).
Proof.
  apply rel_rewrite_path; [exact no_app_call_refl|exact no_app_call_trans|].
  intros k v _. apply no_app_call_set.
Qed.

(** X7.  In one call of the middleware the wrapped application is
    invoked once or not at all. *)
Theorem application_called_at_most_once lib self st :
  app_calls (trace st) <= app_calls (trace (__call__ lib self st).2)
  <= app_calls (trace st) + 1.
Proof.
  assert (H : exists l, app_environs (trace (__call__ lib self st).2)
                        = (app_environs (trace st) ++ l)%list
                        /\ length l <= 1).
  { rewrite call_until_dispatch. unfold bind.
    pose proof (no_app_call_until_dispatch lib self st) as Hpre.
    destruct (until_dispatch lib self st) as [[[[url m] route]|e] st5];
      unfold no_app_call in Hpre; simpl in *;
      [|exists []; rewrite Hpre, app_nil_r; auto].
    rewrite <- Hpre.
    assert (Hfwd : exists l, app_environs (trace (forward self m st5).2)
                             = (app_environs (trace st5) ++ l)%list
                             /\ length l <= 1).
    { unfold forward, bind at 1.
      pose proof (no_app_call_rewrite_path m st5) as Hrw.
      destruct (path_info self && bool_decide (is_Some (m !! "path_info"))).
      - destruct (rewrite_path m st5) as [[[]|e] st6]; unfold no_app_call in Hrw;
          simpl in *; [|exists []; rewrite Hrw, app_nil_r; auto].
        rewrite app_and_cleanup_spec. simpl. rewrite app_environs_app, Hrw.
        eexists. split; [reflexivity|simpl; lia].
      - simpl. rewrite app_and_cleanup_spec. simpl. rewrite app_environs_app.
        eexists. split; [reflexivity|simpl; lia]. }
    unfold dispatch. destruct route as [r|]; [|exact Hfwd].
    destruct (redirect r); [|exact Hfwd].
    pose proof (no_app_call_redirect_response lib url m r st5) as Hr.
    unfold no_app_call in Hr. exists []. rewrite Hr, app_nil_r. auto. }
  destruct H as (l & E & Hl). unfold app_calls. rewrite E, length_app. lia.
Qed.

Lemma quiet_redirect_until_dispatch lib self :
  rel (quiet redirect_event) (until_dispatch lib self).
Proof.
  pose proof (quiet_trans redirect_event) as Ht.
  unfold until_dispatch. apply (rel_bind _ Ht).
  { apply rel_method_override; [exact (quiet_refl _)|exact Ht| | |].
    - intros v. apply quiet_set.
    - refine (quiet_call _ _ _ _). reflexivity.
    - refine (quiet_call _ _ _ _). reflexivity. }
  intros old. apply (rel_bind _ Ht); [apply quiet_run_matching; reflexivity|].
  intros found. apply (rel_bind _ Ht); [apply quiet_restore_method|intros _].
  apply (rel_bind _ Ht); [apply quiet_inspect_match|intros m].
  apply (rel_bind _ Ht); [apply quiet_publish; reflexivity|intros url].
  apply rel_ret. exact (quiet_refl _).
Qed.

(** X8.  Unless the matcher found a route with the redirect flag, the
    middleware itself never calls the URL generator and never calls
    [start_response]: the only [start_response] is the application's. *)
Theorem redirect_calls_only_to_redirect lib self st :
  (forall x st5, until_dispatch lib self st = (Return x, st5) ->
                 from_option redirect false x.2 = false) ->
  quiet redirect_event st (__call__ lib self st).2.
Proof.
  intros Hnot. rewrite call_until_dispatch. unfold bind.
  pose proof (quiet_redirect_until_dispatch lib self st) as Hpre.
  destruct (until_dispatch lib self st) as [[[[url m] route]|e] st5] eqn:E;
    simpl in *; [|exact Hpre].
  eapply quiet_trans; [exact Hpre|].
  specialize (Hnot _ _ eq_refl). simpl in Hnot.
  assert (Hfwd : quiet redirect_event st5 (forward self m st5).2).
  { apply quiet_forward. reflexivity. }
  unfold dispatch. destruct route as [r|]; [|exact Hfwd].
  simpl in Hnot. rewrite Hnot. exact Hfwd.
Qed.

Lemma redirect_calls_only_to_redirect_witness :
  let lib := plain_library ∅ ∅ (Some (Some {["path_info" := Some "a/b"]}, Some blog_route)) in
  let self := middleware hello_app true true in
  events redirect_event (trace (__call__ lib self (start (request "GET" "/blog/a/b" ""))).2)
  = [].
Proof.
  intros lib self.
  apply (redirect_calls_only_to_redirect lib self (start (request "GET" "/blog/a/b" ""))).
  intros x st5 Hx. vm_compute in Hx. injection Hx as <- _. reflexivity.
Defined.

(** X9.  The redirect returns at line 142, before the cleanup of lines
    159-162: when the generator leaves the route table's environment
    binding alone, the binding is after the call what it was at line 134, so
    what the matcher bound in shared mode stays bound. *)
Theorem redirect_skips_cleanup lib self st url m r st5 :
  until_dispatch lib self st = (Return (url, m, Some r), st5) ->
  redirect r = true ->
  (forall u name kw, keeps_binding (url_call lib u name kw)) ->
  (__call__ lib self st).1 = Return []
  /\ mapper_environ (world (__call__ lib self st).2) = mapper_environ (world st5).
Proof.
  intros Hu Hred Hkeep.
  rewrite call_until_dispatch, (bind_Return _ _ _ _ _ Hu). simpl.
  rewrite Hred, redirect_response_spec. simpl. split; [reflexivity|apply Hkeep].
Qed.

Lemma redirect_skips_cleanup_witness :
  let lib := plain_library ∅ ∅ (Some (Some {["id" := Some "7"]}, Some moved_route)) in
  let self := middleware hello_app true false in
  let st := start (request "GET" "/old/7" "") in
  mapper_environ (world st) = false
  /\ (__call__ lib self st).1 = Return []
  /\ mapper_environ (world (__call__ lib self st).2) = true.
Proof.
  intros lib self st. split; [reflexivity|].
  destruct (redirect_skips_cleanup lib self st 1 {["id" := Some "7"]} moved_route
              (until_dispatch lib self st).2) as [H1 H2].
  - vm_compute; reflexivity.
  - reflexivity.
  - intros u name kw w. reflexivity.
  - split; [exact H1|]. rewrite H2. reflexivity.
Defined.

(** ** Debug logging *)

Lemma log_urlinfo_without_path st :
  is_Some (environ (world st) !! "REQUEST_METHOD") ->
  environ (world st) !! "PATH_INFO" = None ->
  log_urlinfo st = (Raise (KeyError "PATH_INFO"), st).
Proof.
  intros [v Hv] Hp. unfold log_urlinfo.
  rewrite (bind_Return _ _ _ _ _ (env_get_Some _ _ _ Hv)).
  apply bind_Raise, env_get_None, Hp.
Qed.

Lemma inspect_match_without_path self mt route st :
  log_debug self = true ->
  is_Some (environ (world st) !! "REQUEST_METHOD") ->
  environ (world st) !! "PATH_INFO" = None ->
  inspect_match self mt route st = (Raise (KeyError "PATH_INFO"), st).
Proof.
  intros Hon Hm Hp. pose proof (log_urlinfo_without_path st Hm Hp) as Hu.
  unfold inspect_match, log_args. rewrite Hon.
  destruct mt as [m|]; [destruct (bool_decide (m = ∅))|].
  - apply bind_Raise, Hu.
  - apply bind_Raise, bind_Raise, Hu.
  - apply bind_Raise, Hu.
Qed.

(** X10.  In a debug run the log lines 117-118 and 121-122 read
    [PATH_INFO] with a subscript: on an environment that has its method but
    no [PATH_INFO] after matching, the call ends there in [KeyError], match
    or no match, with no generator constructed, nothing published and the
    application not invoked. *)
Theorem debug_log_reads_path_info lib self st old st1 found st2 :
  log_debug self = true ->
  method_override lib self st = (Return old, st1) ->
  run_matching lib self st1 = (Return found, st2) ->
  let st3 := (restore_method old st2).2 in
  is_Some (environ (world st3) !! "REQUEST_METHOD") ->
  environ (world st3) !! "PATH_INFO" = None ->
  __call__ lib self st = (Raise (KeyError "PATH_INFO"), st3).
Proof.
  intros Hon Hmo Hrm st3 Hm Hp. unfold __call__.
  rewrite (bind_Return _ _ _ _ _ Hmo), (bind_Return _ _ _ _ _ Hrm).
  rewrite (bind_Return _ _ _ _ _ (restore_method_returns old st2)).
  unfold after_restore. apply bind_Raise.
  apply inspect_match_without_path; assumption.
Qed.

Lemma debug_log_reads_path_info_witness :
  let lib := plain_library ∅ ∅ (Some (Some {["id" := Some "7"]}, Some moved_route)) in
  let self := middleware hello_app false true in
  let st := start (delete "PATH_INFO" (request "GET" "" "")) in
  (__call__ lib self st).1 = Raise (KeyError "PATH_INFO")
  /\ trace (__call__ lib self st).2
     = [EvMatch false 0 (delete "PATH_INFO" (request "GET" "" ""))].
Proof.
  intros lib self st.
  pose (st1 := (method_override lib self st).2).
  pose (st2 := (run_matching lib self st1).2).
  rewrite (debug_log_reads_path_info lib self st VNone st1
             (Some {["id" := Some "7"]}, Some moved_route) st2).
  - split; reflexivity.
  - reflexivity.
  - vm_compute; reflexivity.
  - vm_compute; reflexivity.
  - eexists. vm_compute. reflexivity.
  - vm_compute; reflexivity.
Defined.

(** X11.  [__init__] decides once whether the log lines evaluate their
    arguments.  For a middleware built with an effective logger level above
    [DEBUG], lines 114-126 read nothing and raise nothing, whatever the
    environment holds; built with a level of [DEBUG] or below, they end in
    [KeyError] on an environment with a method and without [PATH_INFO]. *)
Theorem logger_level_decides wsgi_app mp o p s level mt route st :
  let self := __init__ wsgi_app mp o p s level in
  (DEBUG < level ->
   inspect_match self mt route st = (Return (published_match mt), st))
  /\ (level <= DEBUG ->
      is_Some (environ (world st) !! "REQUEST_METHOD") ->
      environ (world st) !! "PATH_INFO" = None ->
      inspect_match self mt route st = (Raise (KeyError "PATH_INFO"), st)).
Proof.
  intros self. split.
  - intros Hlevel. apply inspect_match_debug_off. simpl.
    apply Nat.leb_gt. exact Hlevel.
  - intros Hlevel Hm Hp. apply inspect_match_without_path; [|exact Hm|exact Hp].
    simpl. apply Nat.leb_le. exact Hlevel.
Qed.

Lemma logger_level_decides_witness :
  let st := start (delete "PATH_INFO" (request "GET" "" "")) in
  inspect_match (__init__ hello_app 0 None None None 20) None None st
  = (Return ∅, st)
  /\ inspect_match (__init__ hello_app 0 None None None 10) None None st
     = (Raise (KeyError "PATH_INFO"), st).
Proof.
  intros st. split.
  - apply (logger_level_decides hello_app 0 None None None 20 None None st).
    unfold DEBUG. lia.
  - apply (logger_level_decides hello_app 0 None None None 10 None None st).
    + unfold DEBUG. lia.
    + eexists. vm_compute. reflexivity.
    + vm_compute. reflexivity.
Defined.

(** ** More on the path rewrite *)

Lemma rewrite_path_state m st oldpath script :
  environ (world st) !! "PATH_INFO" = Some (VStr oldpath) ->
  environ (world st) !! "SCRIPT_NAME" = Some (VStr script) ->
  rewrite_path m st =
    (Return tt,
     mkSt (set_environ
             (<["SCRIPT_NAME" := VStr (script +:+ re_sub_group1 (remainder m) oldpath)]>
                (<["PATH_INFO" := VStr (slash_path (remainder m))]>
                   (environ (world st))))
             (world st))
          (trace st)).
Proof.
  intros Hp Hs. unfold rewrite_path, slash_path.
  rewrite (bind_Return _ _ _ _ _ (env_get_Some _ _ _ Hp)).
  unfold bind at 1. simpl. unfold bind at 1.
  destruct (startswith "/" (remainder m)); simpl.
  - unfold bind, env_get. simpl.
    rewrite lookup_insert_ne by discriminate. rewrite Hs. reflexivity.
  - unfold bind, env_get. simpl.
    rewrite !lookup_insert_ne by discriminate. rewrite Hs. simpl.
    rewrite insert_insert_eq. reflexivity.
Qed.

(** X12.  On an environment whose [PATH_INFO] and [SCRIPT_NAME] are
    strings the rewrite of lines 147-153 always goes through: afterwards
    [PATH_INFO] begins with a slash, [SCRIPT_NAME] is the old one with
    something appended, and no other key, nor the route table's binding, nor
    the trace has changed. *)
Theorem rewrite_path_invariants m st oldpath script :
  environ (world st) !! "PATH_INFO" = Some (VStr oldpath) ->
  environ (world st) !! "SCRIPT_NAME" = Some (VStr script) ->
  exists st' path ext,
    rewrite_path m st = (Return tt, st')
    /\ environ (world st') !! "PATH_INFO" = Some (VStr path)
    /\ startswith "/" path = true
    /\ environ (world st') !! "SCRIPT_NAME" = Some (VStr (script +:+ ext))
    /\ (forall k, k ∉ path_keys -> same_at k st st')
    /\ mapper_environ (world st') = mapper_environ (world st)
    /\ trace st' = trace st.
Proof.
  intros Hp Hs. eexists _, (slash_path (remainder m)), _.
  split; [apply (rewrite_path_state m st oldpath script Hp Hs)|]. simpl.
  split; [rewrite lookup_insert_ne by discriminate; apply lookup_insert_eq|].
  split; [apply startswith_slash_path|].
  split; [apply lookup_insert_eq|].
  split; [|split; reflexivity].
  intros k Hk. unfold same_at, path_keys in *. simpl.
  apply not_elem_of_cons in Hk as [H1 Hk]. apply not_elem_of_cons in Hk as [H2 _].
  rewrite !lookup_insert_ne by congruence. reflexivity.
Qed.

Lemma rewrite_path_invariants_witness :
  exists st' path ext,
    rewrite_path {["path_info" := None]} (start (request "GET" "/blog" "")) = (Return tt, st')
    /\ environ (world st') !! "PATH_INFO" = Some (VStr path)
    /\ startswith "/" path = true
    /\ environ (world st') !! "SCRIPT_NAME" = Some (VStr ("" +:+ ext))
    /\ (forall k, k ∉ path_keys -> same_at k (start (request "GET" "/blog" "")) st')
    /\ mapper_environ (world st') = false
    /\ trace st' = [].
Proof.
  apply (rewrite_path_invariants {["path_info" := None]}
           (start (request "GET" "/blog" "")) "/blog" "");
    vm_compute; reflexivity.
Defined.

(** X13.  The rewrite keeps the URL together: on an original path
    without line feeds that ends with a slash and the remainder, the
    remainder not beginning with a slash itself, the new [SCRIPT_NAME]
    followed by the new [PATH_INFO] is the old [SCRIPT_NAME] followed by the
    old [PATH_INFO].  When the original path does not end that way, the
    whole of it is appended to [SCRIPT_NAME]. *)
Theorem rewrite_path_keeps_url m st oldpath script :
  environ (world st) !! "PATH_INFO" = Some (VStr oldpath) ->
  environ (world st) !! "SCRIPT_NAME" = Some (VStr script) ->
  has_LF oldpath = false ->
  let st' := (rewrite_path m st).2 in
  (forall p,
     strip_suffix ("/" +:+ remainder m) oldpath = Some p ->
     startswith "/" (remainder m) = false ->
     environ (world st') !! "SCRIPT_NAME" = Some (VStr (script +:+ p))
     /\ environ (world st') !! "PATH_INFO" = Some (VStr ("/" +:+ remainder m))
     /\ (script +:+ p) +:+ ("/" +:+ remainder m) = script +:+ oldpath)
  /\ (strip_suffix ("/" +:+ remainder m) oldpath = None ->
      environ (world st') !! "SCRIPT_NAME" = Some (VStr (script +:+ oldpath))).
Proof.
  intros Hp Hs HLF st'. subst st'.
  rewrite (rewrite_path_state m st oldpath script Hp Hs). simpl.
  rewrite (re_sub_group1_without_LF _ _ HLF). split.
  - intros p Hstrip Hslash. rewrite Hstrip. simpl.
    split; [apply lookup_insert_eq|].
    split.
    + rewrite lookup_insert_ne by discriminate. unfold slash_path.
      rewrite Hslash. apply lookup_insert_eq.
    + rewrite append_assoc_string. f_equal. symmetry.
      apply strip_suffix_Some, Hstrip.
  - intros Hstrip. rewrite Hstrip. apply lookup_insert_eq.
Qed.

Lemma rewrite_path_keeps_url_witness :
  let st' := (rewrite_path {["path_info" := Some "a/b"]}
                (start (<["SCRIPT_NAME" := VStr "/app"]> (request "GET" "/blog/a/b" "")))).2 in
  environ (world st') !! "SCRIPT_NAME" = Some (VStr "/app/blog")
  /\ environ (world st') !! "PATH_INFO" = Some (VStr "/a/b")
  /\ environ (world (rewrite_path {["path_info" := Some ""]}
                       (start (request "GET" "/blog" ""))).2) !! "SCRIPT_NAME"
     = Some (VStr "/blog").
Proof.
  intros st'.
  destruct (rewrite_path_keeps_url {["path_info" := Some "a/b"]}
              (start (<["SCRIPT_NAME" := VStr "/app"]> (request "GET" "/blog/a/b" "")))
              "/blog/a/b" "/app") as [H _];
    [vm_compute; reflexivity|vm_compute; reflexivity|reflexivity|].
  destruct (H "/blog") as (H1 & H2 & _); [vm_compute; reflexivity|reflexivity|].
  split; [exact H1|]. split; [exact H2|].
  destruct (rewrite_path_keeps_url {["path_info" := Some ""]}
              (start (request "GET" "/blog" "")) "/blog" "") as [_ H'];
    [vm_compute; reflexivity|vm_compute; reflexivity|reflexivity|].
  apply H'. vm_compute. reflexivity.
Defined.

(** X14.  The rewrite assigns [PATH_INFO] before it reads [SCRIPT_NAME]:
    on an environment without [SCRIPT_NAME], lines 146-163 end in [KeyError]
    with [PATH_INFO] already replaced, and the application is not
    invoked. *)
Theorem rewrite_without_script_name self m st oldpath :
  path_info self = true ->
  is_Some (m !! "path_info") ->
  environ (world st) !! "PATH_INFO" = Some oldpath ->
  environ (world st) !! "SCRIPT_NAME" = None ->
  forward self m st =
    (Raise (KeyError "SCRIPT_NAME"),
     mkSt (set_environ (<["PATH_INFO" := VStr (slash_path (remainder m))]>
                          (environ (world st)))
                       (world st))
          (trace st)).
Proof.
  intros Hon Hin Hp Hs. unfold forward. rewrite Hon.
  rewrite (bool_decide_eq_true_2 _ Hin). simpl. apply bind_Raise.
  unfold rewrite_path, slash_path.
  rewrite (bind_Return _ _ _ _ _ (env_get_Some _ _ _ Hp)).
  unfold bind at 1. simpl. unfold bind at 1.
  destruct (startswith "/" (remainder m)); simpl.
  - apply bind_Raise. unfold env_get. simpl.
    rewrite lookup_insert_ne by discriminate. rewrite Hs. reflexivity.
  - unfold bind, env_get. simpl.
    rewrite !lookup_insert_ne by discriminate. rewrite Hs.
    rewrite insert_insert_eq. reflexivity.
Qed.

Lemma rewrite_without_script_name_witness :
  let e := delete "SCRIPT_NAME" (request "GET" "/blog/a/b" "") in
  forward (middleware hello_app false false) {["path_info" := Some "a/b"]} (start e)
  = (Raise (KeyError "SCRIPT_NAME"),
     mkSt (mkWorld (<["PATH_INFO" := VStr "/a/b"]> e) false) []).
Proof.
  intros e.
  rewrite (rewrite_without_script_name (middleware hello_app false false)
             {["path_info" := Some "a/b"]} (start e) (VStr "/blog/a/b"));
    [reflexivity|reflexivity|eexists; reflexivity
    |vm_compute; reflexivity|vm_compute; reflexivity].
Defined.

Lemma lazy_group_cons lit c s :
  lazy_group lit (String c s)
  = if String.eqb (String c s) lit then Some ("", "")
    else if String.eqb (String c s) (lit +:+ String LF "")
         then Some ("", String LF "")
         else if Ascii.eqb c LF then None
              else match lazy_group lit s with
                   | Some (p, r) => Some (String c p, r)
                   | None => None
                   end.
Proof. reflexivity. Qed.

Lemma has_LF_nonempty p : has_LF p = true -> 1 <= String.length p.
Proof. destruct p; [discriminate|simpl; lia]. Qed.

(** A line feed in what precedes the literal: the lazy group cannot get
    across it, and there is no match. *)
Lemma lazy_group_LF_before r p :
  has_LF p = true ->
  lazy_group ("/" +:+ r) (p +:+ ("/" +:+ r)) = None.
Proof.
  induction p as [|c p IH]; [discriminate|]. intros HLF.
  rewrite (append_cons c p), lazy_group_cons.
  change (has_LF (String c p)) with (Ascii.eqb c LF || has_LF p) in HLF.
  rewrite eqb_length_ne
    by (simpl; rewrite length_append_string; simpl; lia).
  assert (E : String.eqb (String c (p +:+ ("/" +:+ r)))
                         (("/" +:+ r) +:+ String LF "") = false).
  { destruct (Ascii.eqb_spec c LF) as [->|Hc].
    - apply String.eqb_neq. discriminate.
    - simpl in HLF. apply has_LF_nonempty in HLF. apply eqb_length_ne.
      simpl. rewrite !length_append_string. simpl. lia. }
  rewrite E. destruct (Ascii.eqb c LF); [reflexivity|].
  simpl in HLF. rewrite (IH HLF). reflexivity.
Qed.

(** A line feed right after the literal, at the very end: [$] matches
    before it, and it is what the match leaves over. *)
Lemma lazy_group_LF_after r p :
  has_LF p = false ->
  lazy_group ("/" +:+ r) (p +:+ (("/" +:+ r) +:+ String LF ""))
  = Some (p, String LF "").
Proof.
  induction p as [|c p IH]; intros HLF.
  - change ("" +:+ (("/" +:+ r) +:+ String LF ""))
      with (String "/" (r +:+ String LF "")).
    rewrite lazy_group_cons.
    rewrite eqb_length_ne
      by (change ("/" +:+ r) with (String "/" r); simpl;
          rewrite length_append_string; simpl; lia).
    change (("/" +:+ r) +:+ String LF "") with (String "/" (r +:+ String LF "")).
    rewrite String.eqb_refl. reflexivity.
  - rewrite (append_cons c p), lazy_group_cons.
    change (has_LF (String c p)) with (Ascii.eqb c LF || has_LF p) in HLF.
    apply orb_false_elim in HLF as [Hc HLF].
    rewrite eqb_length_ne
      by (simpl; rewrite !length_append_string; simpl; lia).
    rewrite eqb_length_ne
      by (simpl; rewrite !length_append_string; simpl; lia).
    rewrite Hc, (IH HLF). reflexivity.
Qed.

(** X15.  Whenever a line feed occurs in the original path before the
    slash and the remainder it ends with, the pattern of line 153 does not
    match and the whole original path is appended to [SCRIPT_NAME]. *)
Theorem line_feed_before_remainder m st p script :
  environ (world st) !! "PATH_INFO" = Some (VStr (p +:+ ("/" +:+ remainder m))) ->
  environ (world st) !! "SCRIPT_NAME" = Some (VStr script) ->
  has_LF p = true ->
  environ (world (rewrite_path m st).2) !! "SCRIPT_NAME"
  = Some (VStr (script +:+ (p +:+ ("/" +:+ remainder m)))).
Proof.
  intros Hp Hs HLF. rewrite (rewrite_path_state m st _ script Hp Hs). simpl.
  rewrite lookup_insert_eq. unfold re_sub_group1.
  rewrite (lazy_group_LF_before _ _ HLF). reflexivity.
Qed.

Lemma line_feed_before_remainder_witness :
  environ (world (rewrite_path {["path_info" := Some "a/b"]}
                    (start (request "GET" (String LF "x" +:+ "/a/b") ""))).2)
    !! "SCRIPT_NAME"
  = Some (VStr (String LF "x/a/b")).
Proof.
  rewrite (line_feed_before_remainder {["path_info" := Some "a/b"]}
             (start (request "GET" (String LF "x" +:+ "/a/b") "")) (String LF "x") "");
    vm_compute; reflexivity.
Defined.

(** X16.  [$] also matches before a line feed that ends the subject: on
    an original path that is a part without line feeds, a slash, the
    remainder and one final line feed, the match stops before the line feed,
    and [SCRIPT_NAME] grows by the first part followed by that line
    feed. *)
Theorem line_feed_after_remainder m st p script :
  environ (world st) !! "PATH_INFO"
  = Some (VStr (p +:+ (("/" +:+ remainder m) +:+ String LF ""))) ->
  environ (world st) !! "SCRIPT_NAME" = Some (VStr script) ->
  has_LF p = false ->
  environ (world (rewrite_path m st).2) !! "SCRIPT_NAME"
  = Some (VStr (script +:+ (p +:+ String LF ""))).
Proof.
  intros Hp Hs HLF. rewrite (rewrite_path_state m st _ script Hp Hs). simpl.
  rewrite lookup_insert_eq. unfold re_sub_group1.
  rewrite (lazy_group_LF_after _ _ HLF). reflexivity.
Qed.

Lemma line_feed_after_remainder_witness :
  environ (world (rewrite_path {["path_info" := Some "a/b"]}
                    (start (request "GET" ("/blog/a/b" +:+ String LF "") ""))).2)
    !! "SCRIPT_NAME"
  = Some (VStr ("/blog" +:+ String LF "")).
Proof.
  rewrite (line_feed_after_remainder {["path_info" := Some "a/b"]}
             (start (request "GET" ("/blog/a/b" +:+ String LF "") "")) "/blog" "");
    vm_compute; reflexivity.
Defined.

(** ** A failure of the application *)

(** X17.  A failure of the wrapped application leaves [__call__] as it
    is, at line 156: the exception is the application's, the world is as
    the application left it, and lines 159-162 do not run, so the route
    table's environment binding is not cleared. *)
Theorem application_failure_propagates lib self st url m route st5 st6 w' e :
  until_dispatch lib self st = (Return (url, m, route), st5) ->
  from_option redirect false route = false ->
  (if path_info self && bool_decide (is_Some (m !! "path_info"))
   then rewrite_path m else ret tt) st5 = (Return tt, st6) ->
  app self (world st6) = (w', Raise e) ->
  __call__ lib self st =
    (Raise e, mkSt w' (trace st6 ++ [EvApp (environ (world st6))])).
Proof.
  intros Hu Hred Hrw Happ.
  rewrite call_until_dispatch, (bind_Return _ _ _ _ _ Hu). simpl.
  assert (E : dispatch lib self url m route st5 = forward self m st5).
  { unfold dispatch. destruct route as [r|]; [|reflexivity].
    simpl in Hred. rewrite Hred. reflexivity. }
  rewrite E. unfold forward. rewrite (bind_Return _ _ _ _ _ Hrw).
  rewrite app_and_cleanup_spec, Happ. reflexivity.
Qed.

Lemma application_failure_propagates_witness :
  let lib := plain_library ∅ ∅ (Some (Some {["path_info" := Some "a/b"]}, Some blog_route)) in
  let self := middleware failing_app true false in
  let st := start (request "GET" "/blog/a/b" "") in
  (__call__ lib self st).1 = Raise (AppError 0)
  /\ mapper_environ (world (__call__ lib self st).2) = true.
Proof.
  intros lib self st.
  pose (st5 := (until_dispatch lib self st).2).
  pose (st6 := (rewrite_path {["path_info" := Some "a/b"]} st5).2).
  rewrite (application_failure_propagates lib self st 1
             {["path_info" := Some "a/b"]} (Some blog_route) st5 st6
             (world st6) (AppError 0)).
  - split; reflexivity.
  - vm_compute; reflexivity.
  - reflexivity.
  - vm_compute; reflexivity.
  - reflexivity.
Defined.
